(** * Repo-unit association queries (pulp.server.managers.repo.unit_association_query)

    A shallow embedding of [RepoUnitAssociationQueryManager] and the
    properties of its query pipeline: the association cursor, the
    duplicate filter, type discovery, the per-type unit cursors, the
    skip/limit adapter, the association-order pass and the merge.

    Python generators are lazy and the stages pull from one another, so a
    generator is embedded as the finite trace it produces when it is
    consumed: the records it yields, interleaved with the storage calls its
    evaluation makes, and the exception that ends it, if any. *)

From Stdlib Require Import ZArith.
From stdpp Require Import gmap strings list sorting.

Local Open Scope string_scope.
Local Open Scope list_scope.
Local Open Scope Z_scope.

#[local] Set Warnings "-clear-no-such-hyp".

(** ** Values, documents, cursors *)

Inductive value :=
  | VStr (s : string)
  | VInt (z : Z).

#[global] Instance value_eq_dec : EqDecision value.
Proof. solve_decision. Defined.

(** A condition of a Mongo query document: a plain value, or [{'$in': vs}]. *)
Inductive cond :=
  | Is (v : value)
  | AmongIn (vs : list value).

(** pymongo.ASCENDING and pymongo.DESCENDING *)
Definition SORT_ASCENDING : Z := 1.
Definition SORT_DESCENDING : Z := -1.

Definition SORT_TYPE_ID := "type_id".
Definition SORT_OWNER_TYPE := "owner_type".
Definition SORT_OWNER_ID := "owner_id".
Definition SORT_CREATED := "created".
Definition SORT_UPDATED := "updated".

(** The collections the manager reads: [RepoContentUnit.get_collection()]
    and [types_db.type_units_collection(unit_type_id)]. *)
Inductive collection :=
  | RepoContentUnit
  | type_units_collection (unit_type_id : string).

#[global] Instance collection_eq_dec : EqDecision collection.
Proof. solve_decision. Defined.

(** A pymongo cursor, as the manager builds it: [find(spec, fields)] and
    then [sort(sort)]. *)
Record Cursor := mkCursor {
  cur_collection : collection;
  cur_spec : gmap string cond;
  cur_fields : option (list string);
  cur_sort : list (string * Z)
}.

(** A unit document of a type's collection. *)
Record unit_doc := mkUnit {
  _id : string;
  unit_payload : list (string * value)
}.

(** What flows through the unit stages: the code is written for unit
    documents, but the stream it builds carries whatever the chain yields. *)
Inductive pyobj :=
  | Unit (u : unit_doc)
  | CursorObj (c : Cursor).

(** An association document, with the [metadata] key the merge adds. *)
Record association := mkAssociation {
  unit_type_id : string;
  unit_id : string;
  repo_id : string;
  owner_type : string;
  owner_id : string;
  created : Z;
  updated : Z;
  metadata : option pyobj
}.

Inductive exn :=
  | KeyError (key : string)
  | TypeError
  | AssertionError.

(** A call against the storage layer. *)
Inductive access :=
  | Find (c : collection)
  | Sort (c : collection) (sort : list (string * Z))
  | Distinct (c : collection) (field : string)
  | Iterate (c : collection).

#[global] Instance access_eq_dec : EqDecision access.
Proof. solve_decision. Defined.

(** ** Generators *)

Inductive event (A : Type) :=
  | Yield (a : A)
  | Access (c : access).
Arguments Yield {A} a.
Arguments Access {A} c.

Record generator (A : Type) := Generator {
  events : list (event A);
  raised : option exn
}.
Arguments Generator {A} events raised.
Arguments events {A} g.
Arguments raised {A} g.

Definition yields {A} (g : generator A) : list A :=
  omap (λ e, match e with Yield a => Some a | Access _ => None end) (events g).

Definition accesses {A} (g : generator A) : list access :=
  omap (λ e, match e with Yield _ => None | Access c => Some c end) (events g).

(** [iter(l)] for a list [l]. *)
Definition from_list {A} (l : list A) : generator A :=
  Generator (Yield <$> l) None.

Definition emit {A} (e : event A) (g : generator A) : generator A :=
  Generator (e :: events g) (raised g).

(** What one turn of a [for] loop inside a generator does with the element
    it pulled: go on (having yielded or not), leave by [raise
    StopIteration()], which in the Python 2 of this code ends the generator
    as a [return] does, or raise. *)
Inductive turn (B S : Type) :=
  | Next (out : option B) (s : S)
  | StopIteration
  | Raise (e : exn).
Arguments Next {B S} out s.
Arguments StopIteration {B S}.
Arguments Raise {B S} e.

(** [for element in iterator: body], the loop being the whole generator
    body.  Storage calls made upstream while the loop pulls happen in
    place; what upstream would have done after the loop is left is not
    run; an exception of the upstream ends the loop with it. *)
Fixpoint for_each_events {A B S} (body : S → A → turn B S) (s : S)
    (evs : list (event A)) (up : option exn) : generator B :=
  match evs with
  | [] => Generator [] up
  | Access c :: rest => emit (Access c) (for_each_events body s rest up)
  | Yield a :: rest =>
      match body s a with
      | Next None s' => for_each_events body s' rest up
      | Next (Some b) s' => emit (Yield b) (for_each_events body s' rest up)
      | StopIteration => Generator [] None
      | Raise e => Generator [] (Some e)
      end
  end.

Definition for_each {A B S} (body : S → A → turn B S) (s : S)
    (iterator : generator A) : generator B :=
  for_each_events body s (events iterator) (raised iterator).

(** ** The duplicate filter *)

(** ['+'.join((unit_association['unit_type_id'], unit_association['unit_id']))] *)
Definition association_id (unit_association : association) : string :=
  unit_type_id unit_association +:+ "+" +:+ unit_id unit_association.

(** One turn of the loop: [continue] on a key already generated, else
    yield and add the key. *)
Definition no_duplicates_turn (previously_generated_association_ids : gset string)
    (unit_association : association) : turn association (gset string) :=
  if decide (association_id unit_association ∈ previously_generated_association_ids)
  then Next None previously_generated_association_ids
  else Next (Some unit_association)
         ({[association_id unit_association]} ∪ previously_generated_association_ids).

Definition _unit_associations_no_duplicates
    (iterator : generator association) : generator association :=
  for_each no_duplicates_turn ∅ iterator.

(** ** The skip/limit adapter *)

(** The [skip] and [limit] arguments as Python passes them. *)
Inductive pyarg :=
  | PyNone
  | PyInt (n : Z)
  | PyStr (s : string).

(** [(isinstance(x, int) and x >= 0) or x is None] *)
Definition valid_arg (x : pyarg) : bool :=
  match x with
  | PyNone => true
  | PyInt n => 0 <=? n
  | PyStr _ => false
  end.

(** [limit and generated_elements - skipped_elements == limit] *)
Definition limit_reached (limit : pyarg) (generated_elements skipped_elements : Z) : bool :=
  match limit with
  | PyInt l => negb (l =? 0) && (generated_elements - skipped_elements =? l)
  | _ => false
  end.

(** [skip and skipped_elements < skip] *)
Definition still_skipping (skip : pyarg) (skipped_elements : Z) : bool :=
  match skip with
  | PyInt s => negb (s =? 0) && (skipped_elements <? s)
  | _ => false
  end.

(** One turn of the loop, on the counters [(generated_elements,
    skipped_elements)].  The loop runs behind the two assertions, so [skip]
    and [limit] are [None] or non-negative integers here. *)
Definition skip_and_limit_turn {A} (skip limit : pyarg) (counters : Z * Z)
    (element : A) : turn A (Z * Z) :=
  let '(generated_elements, skipped_elements) := counters in
  if limit_reached limit generated_elements skipped_elements
  then StopIteration
  else if still_skipping skip skipped_elements
  then Next None (generated_elements, skipped_elements + 1)
  else Next (Some element) (generated_elements + 1, skipped_elements).

Definition _with_skip_and_limit {A} (iterator : generator A)
    (skip limit : pyarg) : generator A :=
  if negb (valid_arg skip) then Generator [] (Some AssertionError)
  else if negb (valid_arg limit) then Generator [] (Some AssertionError)
  else for_each (skip_and_limit_turn skip limit) (0, 0) iterator.

(** ** The association-order pass and the merge *)

(** [obj['_id']]: a unit document gives its id; a pymongo cursor accepts
    only integer and slice subscripts and raises [TypeError] on a string. *)
Definition subscript_id (obj : pyobj) : exn + string :=
  match obj with
  | Unit u => inr (_id u)
  | CursorObj _ => inl TypeError
  end.

(** [dict((u['_id'], u) for u in associated_units)]: the whole upstream is
    pulled; a later document with the same id replaces the earlier one. *)
Fixpoint dict_by_id (evs : list (event pyobj)) (up : option exn)
    (d : gmap string pyobj) : list access * (exn + gmap string pyobj) :=
  match evs with
  | [] => ([], match up with Some e => inl e | None => inr d end)
  | Access c :: rest =>
      let '(acc, r) := dict_by_id rest up d in (c :: acc, r)
  | Yield u :: rest =>
      match subscript_id u with
      | inl e => ([], inl e)
      | inr k => dict_by_id rest up (<[k := u]> d)
      end
  end.

(** [yield associated_units_by_id[unit_id]] *)
Definition ordered_turn (associated_units_by_id : gmap string pyobj) (_ : ())
    (unit_id : string) : turn pyobj () :=
  match associated_units_by_id !! unit_id with
  | Some u => Next (Some u) ()
  | None => Raise (KeyError unit_id)
  end.

Definition _association_ordered_units (associated_unit_ids : list string)
    (associated_units : generator pyobj) : generator pyobj :=
  let '(acc, r) := dict_by_id (events associated_units) (raised associated_units) ∅ in
  match r with
  | inl e => Generator (Access <$> acc) (Some e)
  | inr associated_units_by_id =>
      let g := for_each (ordered_turn associated_units_by_id) ()
                 (from_list associated_unit_ids) in
      Generator ((Access <$> acc) ++ events g) (raised g)
  end.

(** [OrderedDict]: keys stay where they were first inserted, a later value
    for a key replaces the earlier one. *)
Fixpoint odict_set {V} (k : string) (v : V) (d : list (string * V)) : list (string * V) :=
  match d with
  | [] => [(k, v)]
  | (k', v') :: rest =>
      if decide (k = k') then (k, v) :: rest else (k', v') :: odict_set k v rest
  end.

Fixpoint odict_get {V} (k : string) (d : list (string * V)) : option V :=
  match d with
  | [] => None
  | (k', v') :: rest => if decide (k = k') then Some v' else odict_get k rest
  end.

Definition OrderedDict {V} (items : list (string * V)) : list (string * V) :=
  foldl (λ d '(k, v), odict_set k v d) [] items.

Definition keys {V} (d : list (string * V)) : list string := d.*1.

(** [association['metadata'] = unit] *)
Definition set_metadata (a : association) (unit : pyobj) : association :=
  mkAssociation (unit_type_id a) (unit_id a) (repo_id a) (owner_type a)
    (owner_id a) (created a) (updated a) (Some unit).

(** The association documents live in [unit_associations_by_id]; the merge
    writes [metadata] into the stored document and yields it, so the map is
    threaded through the loop.  A yielded record is the document as it is
    when it is yielded. *)
Definition merged_turn (unit_associations_by_id : list (string * association))
    (unit : pyobj) : turn association (list (string * association)) :=
  match subscript_id unit with
  | inl e => Raise e
  | inr k =>
      match odict_get k unit_associations_by_id with
      | None => Raise (KeyError k)
      | Some association =>
          let association := set_metadata association unit in
          Next (Some association) (odict_set k association unit_associations_by_id)
      end
  end.

Definition _merged_units (unit_associations_by_id : list (string * association))
    (associated_units : generator pyobj) : generator association :=
  for_each merged_turn unit_associations_by_id associated_units.

(** ** Criteria *)

(** [pulp.server.db.model.criteria.UnitAssociationCriteria]: the attributes
    the manager reads.  An empty [type_ids] and an empty or absent sort are
    what Python's [or] treats as missing. *)
Record UnitAssociationCriteria := mkCriteria {
  type_ids : list string;
  association_filters : gmap string cond;
  association_fields : option (list string);
  association_sort : option (list (string * Z));
  unit_filters : gmap string cond;
  unit_fields : option (list string);
  unit_sort : option (list (string * Z));
  limit : pyarg;
  skip : pyarg;
  remove_duplicates : bool
}.

(** [criteria.type_ids = v] *)
Definition set_type_ids (c : UnitAssociationCriteria) (v : list string) :=
  mkCriteria v (association_filters c) (association_fields c)
    (association_sort c) (unit_filters c) (unit_fields c) (unit_sort c)
    (limit c) (skip c) (remove_duplicates c).

(** An in-place change of the list object [criteria.association_sort] *)
Definition set_association_sort (c : UnitAssociationCriteria)
    (v : option (list (string * Z))) :=
  mkCriteria (type_ids c) (association_filters c) (association_fields c)
    v (unit_filters c) (unit_fields c) (unit_sort c)
    (limit c) (skip c) (remove_duplicates c).

(** ** The collaborators *)

(** The storage layer, the type registry and the criteria constructor are
    outside the manager: what a cursor yields when iterated, the unit key
    of a type, and the criteria built by [UnitAssociationCriteria()]. *)
Record Collaborators := mkCollaborators {
  iterate_associations : Cursor → list association;
  iterate_units : Cursor → list unit_doc;
  type_units_unit_key : string → list string;
  new_criteria : UnitAssociationCriteria
}.

(** A stable sort: a later element goes behind the earlier ones it does
    not precede. *)
Fixpoint insert_by {A} (lt : A → A → bool) (x : A) (l : list A) : list A :=
  match l with
  | [] => [x]
  | y :: rest => if lt x y then x :: y :: rest else y :: insert_by lt x rest
  end.

Definition sort_by {A} (lt : A → A → bool) (l : list A) : list A :=
  foldl (λ acc x, insert_by lt x acc) [] l.

(** [sorted(l)] on strings *)
Definition sorted (l : list string) : list string := sort_by String.ltb l.

(** [itertools.chain] over its argument iterables, one after the other *)
Fixpoint itertools_chain {A} (iterables : list (generator A)) : generator A :=
  match iterables with
  | [] => Generator [] None
  | g :: rest =>
      match raised g with
      | Some e => g
      | None =>
          let r := itertools_chain rest in
          Generator (events g ++ events r) (raised r)
      end
  end.

Definition created_sort_tuple : string * Z := ("created", SORT_ASCENDING).

Inductive result :=
  | Raised (e : exn)
  | AsList (l : list association)
  | AsGenerator (g : generator association).

(** What a call leaves behind: its result, the storage calls made before
    it returned, and the criteria object as the caller finds it. *)
Record call := mkCall {
  returned : result;
  accessed : list access;
  criteria_after : UnitAssociationCriteria
}.

Section Manager.

Context (db : Collaborators).

(** Iterating a cursor over the association collection *)
Definition association_documents (c : Cursor) : generator association :=
  emit (Access (Iterate (cur_collection c))) (from_list (iterate_associations db c)).

Definition _unit_type_ids_for_repo (repo_id : string) : list string * list access :=
  let unit_associations :=
    mkCursor RepoContentUnit {[ "repo_id" := Is (VStr repo_id) ]}
      (Some ["unit_type_id"]) [] in
  (* the value of [unit_associations.distinct('unit_type_id')] is dropped *)
  (unit_type_id <$> iterate_associations db unit_associations,
   [Find RepoContentUnit; Distinct RepoContentUnit "unit_type_id";
    Iterate RepoContentUnit]).

Definition _unit_associations_cursor (repo_id : string)
    (criteria : UnitAssociationCriteria)
    : Cursor * UnitAssociationCriteria * list access :=
  let spec := association_filters criteria in
  let spec := <[ "repo_id" := Is (VStr repo_id) ]> spec in
  let spec :=
    match type_ids criteria with
    | [] => spec
    | _ :: _ => <[ "unit_type_id" := AmongIn (VStr <$> type_ids criteria) ]> spec
    end in
  let cursor := mkCursor RepoContentUnit spec (association_fields criteria) [] in
  (* [sort = criteria.association_sort or []]: the caller's own list when
     it is non-empty, a fresh list otherwise *)
  let '(sort, callers_list) :=
    match association_sort criteria with
    | Some (x :: l) => (x :: l, true)
    | _ => ([], false)
    end in
  let '(sort, criteria) :=
    if decide (created_sort_tuple ∈ sort) then (sort, criteria)
    else
      (* [sort.insert(0, created_sort_tuple)] *)
      let sort := created_sort_tuple :: sort in
      (sort, if callers_list : bool
             then set_association_sort criteria (Some sort) else criteria) in
  let sorted_cursor :=
    mkCursor (cur_collection cursor) (cur_spec cursor) (cur_fields cursor) sort in
  (sorted_cursor, criteria, [Find RepoContentUnit; Sort RepoContentUnit sort]).

Definition _associated_units_by_type_cursor (unit_type_id : string)
    (criteria : UnitAssociationCriteria) (associated_unit_ids : list string)
    : Cursor * list access :=
  let spec := unit_filters criteria in
  let spec := <[ "_id" := AmongIn (VStr <$> associated_unit_ids) ]> spec in
  let cursor :=
    mkCursor (type_units_collection unit_type_id) spec (unit_fields criteria) [] in
  let sort :=
    match unit_sort criteria with
    | Some (x :: l) => x :: l
    | _ => (λ u, (u, SORT_ASCENDING)) <$> type_units_unit_key db unit_type_id
    end in
  let sorted_cursor :=
    mkCursor (cur_collection cursor) (cur_spec cursor) (cur_fields cursor) sort in
  (sorted_cursor,
   [Find (type_units_collection unit_type_id);
    Sort (type_units_collection unit_type_id) sort]).

(** The generator expression
    [(self._associated_units_by_type_cursor(t, criteria, ids) for t in unit_type_ids)]:
    each cursor is built when the expression is pulled, and is what it yields. *)
Definition unit_cursors (unit_type_ids : list string)
    (criteria : UnitAssociationCriteria) (ids : list string) : generator pyobj :=
  Generator
    (unit_type_ids ≫= λ t,
       let '(cursor, acc) := _associated_units_by_type_cursor t criteria ids in
       (Access <$> acc) ++ [Yield (CursorObj cursor)])
    None.

(** [itertools.chain(<the generator expression>)]: the chain is given one
    iterable, the generator expression itself. *)
Definition chained_units (unit_type_ids : list string)
    (criteria : UnitAssociationCriteria) (ids : list string) : generator pyobj :=
  itertools_chain [unit_cursors unit_type_ids criteria ids].

(** [criteria.type_ids or self._unit_type_ids_for_repo(repo_id)], sorted *)
Definition unit_type_ids_of (repo_id : string)
    (criteria : UnitAssociationCriteria) : list string * list access :=
  let '(unit_type_ids, acc) :=
    match type_ids criteria with
    | [] => _unit_type_ids_for_repo repo_id
    | _ :: _ => (type_ids criteria, [])
    end in
  (sorted unit_type_ids, acc).

Definition get_units (repo_id : string)
    (criteria : option UnitAssociationCriteria) (as_generator : bool) : call :=
  let criteria := default (new_criteria db) criteria in
  let '(cursor, criteria, acc_cursor) := _unit_associations_cursor repo_id criteria in
  let unit_associations_generator := association_documents cursor in
  let unit_associations_generator :=
    if remove_duplicates criteria
    then _unit_associations_no_duplicates unit_associations_generator
    else unit_associations_generator in
  (* [OrderedDict(...)] pulls the whole association stream *)
  let acc := acc_cursor ++ accesses unit_associations_generator in
  match raised unit_associations_generator with
  | Some e => mkCall (Raised e) acc criteria
  | None =>
      let unit_associations_by_id :=
        OrderedDict ((λ u, (unit_id u, u)) <$> yields unit_associations_generator) in
      let '(unit_type_ids, acc_types) := unit_type_ids_of repo_id criteria in
      let acc := acc ++ acc_types in
      let units_generator :=
        chained_units unit_type_ids criteria (keys unit_associations_by_id) in
      let units_generator :=
        _with_skip_and_limit units_generator (skip criteria) (limit criteria) in
      let units_generator :=
        match association_sort criteria with
        | Some _ =>
            _association_ordered_units (keys unit_associations_by_id) units_generator
        | None => units_generator
        end in
      let units_generator := _merged_units unit_associations_by_id units_generator in
      if as_generator then mkCall (AsGenerator units_generator) acc criteria
      else
        (* [list(units_generator)] *)
        mkCall
          match raised units_generator with
          | Some e => Raised e
          | None => AsList (yields units_generator)
          end
          (acc ++ accesses units_generator) criteria
  end.

Definition get_units_across_types (repo_id : string)
    (criteria : option UnitAssociationCriteria) (as_generator : bool) : call :=
  get_units repo_id criteria as_generator.

Definition get_units_by_type (repo_id type_id : string)
    (criteria : option UnitAssociationCriteria) (as_generator : bool) : call :=
  let criteria := default (new_criteria db) criteria in
  let criteria := set_type_ids criteria [type_id] in
  get_units repo_id (Some criteria) as_generator.

End Manager.

(** ** An in-memory storage layer

    A stand-in for the document store, to run the manager on concrete
    repositories: [find] keeps the documents that satisfy every condition
    of the query document, [sort] orders them by the sort keys in turn.
    Projections are carried by the cursor; documents keep their schema. *)
Module Memory.

Record store := mkStore {
  associations : list association;
  units : string → list unit_doc;
  unit_key : string → list string
}.

Definition association_field (a : association) (f : string) : option value :=
  if decide (f = "unit_type_id") then Some (VStr (unit_type_id a))
  else if decide (f = "unit_id") then Some (VStr (unit_id a))
  else if decide (f = "repo_id") then Some (VStr (repo_id a))
  else if decide (f = "owner_type") then Some (VStr (owner_type a))
  else if decide (f = "owner_id") then Some (VStr (owner_id a))
  else if decide (f = "created") then Some (VInt (created a))
  else if decide (f = "updated") then Some (VInt (updated a))
  else None.

Definition unit_field (u : unit_doc) (f : string) : option value :=
  if decide (f = "_id") then Some (VStr (_id u))
  else (λ found, found.2.2) <$> list_find (λ p, p.1 = f) (unit_payload u).

Definition satisfies (c : cond) (v : option value) : bool :=
  match v, c with
  | Some v, Is w => bool_decide (v = w)
  | Some v, AmongIn ws => bool_decide (v ∈ ws)
  | None, _ => false
  end.

Definition matches {D} (field : D → string → option value)
    (spec : gmap string cond) (d : D) : bool :=
  forallb (λ '(f, c), satisfies c (field d f)) (map_to_list spec).

Definition compare_value (v w : option value) : comparison :=
  match v, w with
  | None, None => Eq
  | None, Some _ => Lt
  | Some _, None => Gt
  | Some (VInt a), Some (VInt b) => Z.compare a b
  | Some (VInt _), Some (VStr _) => Lt
  | Some (VStr _), Some (VInt _) => Gt
  | Some (VStr a), Some (VStr b) => String.compare a b
  end.

Fixpoint precedes {D} (field : D → string → option value)
    (sort : list (string * Z)) (x y : D) : bool :=
  match sort with
  | [] => false
  | (f, direction) :: rest =>
      match compare_value (field x f) (field y f) with
      | Eq => precedes field rest x y
      | Lt => direction =? SORT_ASCENDING
      | Gt => negb (direction =? SORT_ASCENDING)
      end
  end.

Definition run {D} (field : D → string → option value) (docs : list D)
    (c : Cursor) : list D :=
  sort_by (precedes field (cur_sort c)) (filter (λ d, matches field (cur_spec c) d) docs).

Definition collaborators (s : store) (dflt : UnitAssociationCriteria) : Collaborators :=
  mkCollaborators
    (run association_field (associations s))
    (λ c, match cur_collection c with
          | RepoContentUnit => []
          | type_units_collection t => run unit_field (units s t) c
          end)
    (unit_key s)
    dflt.

End Memory.

(** ** Vocabulary of the properties *)

(** The identity of an association for the purpose of duplicates. *)
Definition identity_key (a : association) : string * string :=
  (unit_type_id a, unit_id a).

(** The records the loop lets through, given the keys already generated. *)
Fixpoint survivors (seen : gset string) (l : list association) : list association :=
  match l with
  | [] => []
  | a :: l =>
      if decide (association_id a ∈ seen) then survivors seen l
      else a :: survivors ({[association_id a]} ∪ seen) l
  end.

(** The record the merge yields for a unit: its association, with the
    unit as [metadata]. *)
Definition attach (d : list (string * association)) (u : unit_doc) : option association :=
  (λ a, set_metadata a (Unit u)) <$> odict_get (_id u) d.

(** Two maps that hold the same associations up to [metadata]. *)
Definition same_but_metadata (d d' : list (string * association)) : Prop :=
  ∀ k o, (λ a, set_metadata a o) <$> odict_get k d'
         = (λ a, set_metadata a o) <$> odict_get k d.

(** The dictionary built from a stream of unit documents. *)
Definition units_by_id (d : gmap string pyobj) (units : list unit_doc) : gmap string pyobj :=
  foldl (λ d u, <[_id u := Unit u]> d) d units.

(** [criteria.association_sort or []] *)
Definition callers_sort (criteria : UnitAssociationCriteria) : list (string * Z) :=
  default [] (association_sort criteria).

(** ** What the specification asks of the stages *)

(** The merge, as specified: a unit whose id is not in the map is dropped,
    the other units are merged, and the stream ends without an error. *)
Definition drops_only_missing_records (d : list (string * association))
    (units : list unit_doc) (g : generator association) : Prop :=
  raised g = None ∧ yields g = omap (attach d) units.

(** The association-order pass, as specified: a requested id without a
    unit is skipped, and the stream ends without an error. *)
Definition skips_absent_ids (ids : list string) (units : list unit_doc)
    (g : generator pyobj) : Prop :=
  raised g = None ∧ yields g = omap (λ i, units_by_id ∅ units !! i) ids.

(** Validation, as specified: the call fails, and no storage call was made. *)
Definition fails_before_storage (c : call) : Prop :=
  (∃ e, returned c = Raised e) ∧ accessed c = [].

(** The sort of the association cursor, as specified. *)
Definition created_is_first_key (c : Cursor) : Prop :=
  head (cur_sort c) = Some created_sort_tuple.

(** The requested ids up to the first one without a unit in the stream,
    and the ids from that one on. *)
Fixpoint split_at_absent (units : list unit_doc) (ids : list string)
    : list string * list string :=
  match ids with
  | [] => ([], [])
  | i :: rest =>
      if decide (i ∈ _id <$> units)
      then let '(served, unserved) := split_at_absent units rest in
           (i :: served, unserved)
      else ([], i :: rest)
  end.

(** The window [input[s : s+l]] of the specification. *)
Definition slice {A} (s l : nat) (input : list A) : list A :=
  take l (drop s input).

(** ** Concrete repositories *)

Module Scenarios.

(** A criteria object that asks for nothing. *)
Definition plain : UnitAssociationCriteria :=
  mkCriteria [] ∅ None None ∅ None None PyNone PyNone false.

Definition linked (type_id unit_id : string) (at_time : Z) : association :=
  mkAssociation type_id unit_id "repo" "importer" "yum_importer" at_time at_time None.

(** A repository with one rpm. *)
Definition one_rpm : Memory.store :=
  Memory.mkStore
    [linked "rpm" "u1" 1]
    (λ t, if decide (t = "rpm") then [mkUnit "u1" [("name", VStr "bash")]] else [])
    (λ _, ["name"]).

(** A repository with a unit of type zeta and two of type alpha. *)
Definition zeta_alpha_alpha : Memory.store :=
  Memory.mkStore
    [linked "zeta" "u1" 1; linked "alpha" "u2" 2; linked "alpha" "u3" 3]
    (λ t, if decide (t = "alpha") then [mkUnit "u2" []; mkUnit "u3" []]
          else if decide (t = "zeta") then [mkUnit "u1" []] else [])
    (λ _, ["_id"]).

Definition negative_skip : UnitAssociationCriteria :=
  mkCriteria [] ∅ None None ∅ None None PyNone (PyInt (-1)) false.

Definition skip_three : UnitAssociationCriteria :=
  mkCriteria [] ∅ None None ∅ None None PyNone (PyInt 3) false.

Definition by_owner_then_created : UnitAssociationCriteria :=
  mkCriteria [] ∅ None
    (Some [(SORT_OWNER_ID, SORT_ASCENDING); (SORT_CREATED, SORT_ASCENDING)])
    ∅ None None PyNone PyNone true.

Definition by_owner : UnitAssociationCriteria :=
  mkCriteria [] ∅ None (Some [(SORT_OWNER_ID, SORT_ASCENDING)])
    ∅ None None PyNone PyNone true.

Definition srpm_only : UnitAssociationCriteria :=
  mkCriteria ["srpm"] ∅ None None ∅ None None PyNone PyNone false.

(** A repository where the unit u1 is associated twice: first by the owner
    "yum", then by the owner "admin". *)
Definition twice_associated : Memory.store :=
  Memory.mkStore
    [mkAssociation "rpm" "u1" "repo" "importer" "yum" 1 1 None;
     mkAssociation "rpm" "u1" "repo" "user" "admin" 2 2 None]
    (λ _, []) (λ _, []).

(** An association map that knows the unit u2 only. *)
Definition only_u2 : list (string * association) := [("u2", linked "rpm" "u2" 1)].

Definition u1 : unit_doc := mkUnit "u1" [("name", VStr "bash")].
Definition u2 : unit_doc := mkUnit "u2" [("name", VStr "zsh")].

End Scenarios.
Import Scenarios.

(** ** The legacy id query *)

Section UnitIds.

(** [cursor.distinct(key)]: the values the storage layer reports for a key
    of the documents of a cursor. *)
Context (distinct : Cursor → string → list string).

(** [ids = unit_ids.setdefault(type_id, []); ids.append(unit_id)] *)
Definition setdefault_append (type_id unit_id : string)
    (unit_ids : gmap string (list string)) : gmap string (list string) :=
  <[ type_id := default [] (unit_ids !! type_id) ++ [unit_id] ]> unit_ids.

(** The cursor [collection.find({'repo_id': repo_id, 'unit_type_id': type_id})] *)
Definition type_in_repo (repo_id type_id : string) : Cursor :=
  mkCursor RepoContentUnit
    (<[ "unit_type_id" := Is (VStr type_id) ]> {[ "repo_id" := Is (VStr repo_id) ]})
    None [].

Definition get_unit_ids (repo_id : string) (unit_type_id : option string)
    : gmap string (list string) * list access :=
  let '(unit_type_ids, acc) :=
    match unit_type_id with
    | None =>
        let cursor :=
          mkCursor RepoContentUnit {[ "repo_id" := Is (VStr repo_id) ]}
            (Some ["unit_type_id"]) [] in
        (distinct cursor "unit_type_id",
         [Find RepoContentUnit; Distinct RepoContentUnit "unit_type_id"])
    | Some t => ([t], [])
    end in
  foldl
    (λ '(unit_ids, acc) type_id,
       (foldl (λ unit_ids unit_id, setdefault_append type_id unit_id unit_ids)
          unit_ids (distinct (type_in_repo repo_id type_id) "unit_id"),
        acc ++ [Find RepoContentUnit; Distinct RepoContentUnit "unit_id"]))
    (∅, acc) unit_type_ids.

End UnitIds.

(** ** Tasks (pulp.tasking.task) *)

Module Task.

Definition task_waiting := "waiting".
Definition task_running := "running".
Definition task_finished := "finished".
Definition task_error := "error".
Definition task_timed_out := "timed out".
Definition task_canceled := "canceled".
Definition task_reset := "reset".

Definition task_states : list string :=
  [task_waiting; task_running; task_finished; task_error; task_timed_out;
   task_canceled; task_reset].

Definition task_ready_states : list string := [task_waiting; task_reset].

Definition task_complete_states : list string :=
  [task_finished; task_error; task_timed_out; task_canceled].

(** The attributes of a task.  The callable and its arguments are
    represented by what calling them does, see [outcome]. *)
Record Task (R : Type) := mkTask {
  id : string;
  method_name : string;
  state : string;
  start_time : option Z;
  finish_time : option Z;
  next_time : option Z;
  result : option R;
  exception : option string;
  traceback : option (list string)
}.
Arguments mkTask {R}.
Arguments id {R}.
Arguments method_name {R}.
Arguments state {R}.
Arguments start_time {R}.
Arguments finish_time {R}.
Arguments next_time {R}.
Arguments result {R}.
Arguments exception {R}.
Arguments traceback {R}.

(** [Task.__init__], given the id drawn for the task and the name of the
    callable. *)
Definition init {R} (new_id callable_name : string) : Task R :=
  mkTask new_id callable_name task_waiting None None None None None None.

(** What [self.callable( *self.args, **self.kwargs)] does: it returns, or it
    raises [TimeoutException], [CancelException], or another [Exception],
    given with the lines [traceback.format_exception] makes of it. *)
Inductive outcome (R : Type) :=
  | Returns (r : R)
  | Timeout
  | Cancel
  | Fails (e : string) (formatted : list string).
Arguments Returns {R}.
Arguments Timeout {R}.
Arguments Cancel {R}.
Arguments Fails {R}.

(** What [run] does besides changing the task. *)
Inductive effect :=
  | LogError (message : string)
  | LogInfo (message : string)
  | QueueComplete.

#[global] Instance effect_eq_dec : EqDecision effect.
Proof. solve_decision. Defined.

(** The exceptions that leave [run]. *)
Inductive failure :=
  | FailedAssertion
  | FormatTypeError.

(** ["".join(lines)] *)
Definition join_lines (lines : list string) : string :=
  foldr String.append "" lines.

(** [run], given what the callable does and the two readings of
    [datetime.datetime.now()].  In the handlers of [TimeoutException] and
    [CancelException] the message is built by
    ['...%s...%s...' % self.id], one string for two conversions, which
    raises [TypeError] before anything is logged; the exception leaves
    [run] from inside the handler. *)
Definition run {R} (self : Task R) (call : outcome R) (now_start now_finish : Z)
    : Task R * list effect * option failure :=
  if negb (bool_decide (state self ∈ task_ready_states))
  then (self, [], Some FailedAssertion)
  else
    let running st :=
      mkTask (id self) (method_name self) st (Some now_start)
        (finish_time self) (next_time self) in
    match call with
    | Timeout =>
        (running task_timed_out (result self) (exception self) (traceback self),
         [], Some FormatTypeError)
    | Cancel =>
        (running task_canceled (result self) (exception self) (traceback self),
         [], Some FormatTypeError)
    | Fails e formatted =>
        (mkTask (id self) (method_name self) task_error (Some now_start)
           (Some now_finish) (next_time self) (result self) (Some e) (Some formatted),
         [LogError ("Task id:" +:+ id self +:+ ", method_name:" +:+ method_name self
                    +:+ ":  " +:+ join_lines formatted);
          QueueComplete],
         None)
    | Returns r =>
        (mkTask (id self) (method_name self) task_finished (Some now_start)
           (Some now_finish) (next_time self) (Some r) (exception self) (traceback self),
         [QueueComplete], None)
    end.

(** [reset]: the traceback is not among the attributes it clears. *)
Definition reset {R} (self : Task R) : Task R :=
  if negb (bool_decide (state self ∈ task_complete_states)) then self
  else
    mkTask (id self) (method_name self) task_reset None None None None None
      (traceback self).

End Task.

(** ** More vocabulary *)

(** The collection a storage call is made on. *)
Definition access_collection (a : access) : collection :=
  match a with
  | Find c | Sort c _ | Distinct c _ | Iterate c => c
  end.

(** Whether a string holds the character ['+']. *)
Fixpoint has_plus (s : string) : bool :=
  match s with
  | EmptyString => false
  | String c rest => if decide (String c "" = "+") then true else has_plus rest
  end.

(** The ids the legacy query gathers for a type [t] while its loop runs
    over [types]: the distinct unit ids of [t], once for each time [t]
    comes up. *)
Definition gathered (distinct : Cursor → string → list string)
    (repo_id : string) (types : list string) (t : string) : list string :=
  types ≫= λ t', if decide (t' = t)
                 then distinct (type_in_repo repo_id t') "unit_id" else [].

(** The types the legacy query loops over. *)
Definition queried_types (distinct : Cursor → string → list string)
    (repo_id : string) (unit_type_id : option string) : list string :=
  match unit_type_id with
  | None =>
      distinct
        (mkCursor RepoContentUnit {[ "repo_id" := Is (VStr repo_id) ]}
           (Some ["unit_type_id"]) [])
        "unit_type_id"
  | Some t => [t]
  end.

(** [cursor.distinct(field)] over the in-memory store: the string values
    of the field in the documents of the cursor, each once, in the order
    in which they first come up. *)
Definition memory_distinct (s : Memory.store) (c : Cursor) (field : string)
    : list string :=
  remove_dups
    (omap (λ a, match Memory.association_field a field with
                | Some (VStr v) => Some v
                | _ => None
                end)
       (Memory.run Memory.association_field (Memory.associations s) c)).

(** A list of strings, or nothing when it is empty. *)
Definition nonempty (l : list string) : option (list string) :=
  match l with
  | [] => None
  | _ :: _ => Some l
  end.

(** * Properties *)

(** ** Generators built from lists *)

Section Generators.

Context {A B S : Type}.
Implicit Types (g : generator A) (l : list A).

Lemma yields_from_list l : yields (from_list l) = l.
Proof.
  induction l as [|x l IH]; [done|].
  unfold yields, from_list in *; simpl in *. by f_equal.
Qed.

Lemma accesses_from_list l : accesses (from_list l) = [].
Proof.
  induction l as [|x l IH]; [done|].
  unfold accesses, from_list in *; simpl in *. done.
Qed.

Lemma yields_emit_yield (b : B) (h : generator B) :
  yields (emit (Yield b) h) = b :: yields h.
Proof. done. Qed.

Lemma yields_emit_access c (h : generator B) :
  yields (emit (Access c) h) = yields h.
Proof. done. Qed.

Lemma raised_emit (e : event B) (h : generator B) : raised (emit e h) = raised h.
Proof. done. Qed.

(** Unfolding one turn of a loop over a list. *)
Lemma for_each_cons (body : S → A → turn B S) s x l :
  for_each body s (from_list (x :: l)) =
  match body s x with
  | Next None s' => for_each body s' (from_list l)
  | Next (Some b) s' => emit (Yield b) (for_each body s' (from_list l))
  | StopIteration => Generator [] None
  | Raise e => Generator [] (Some e)
  end.
Proof. done. Qed.

Lemma for_each_nil (body : S → A → turn B S) s :
  for_each body s (from_list []) = Generator [] None.
Proof. done. Qed.

End Generators.

Arguments for_each : simpl never.
Arguments from_list : simpl never.

(** ** The skip/limit adapter *)

Section SkipLimit.

Context {A : Type}.
Implicit Types (input : list A) (s l g k : Z).

(** With a limit of [0] the adapter does not limit: [limit and ...] is
    false, and everything behind the skipped elements is yielded. *)
Lemma skip_and_limit_unbounded s input g k :
  0 ≤ k ≤ s →
  for_each (skip_and_limit_turn (PyInt s) (PyInt 0)) (g, k) (from_list input)
  = from_list (drop (Z.to_nat (s - k)) input).
Proof.
  revert g k. induction input as [|x input IH]; intros g k Hk.
  { by rewrite drop_nil. }
  rewrite for_each_cons. unfold skip_and_limit_turn at 1, limit_reached, still_skipping.
  simpl. destruct (s =? 0) eqn:Hs; simpl.
  - apply Z.eqb_eq in Hs. replace (s - k) with 0 by lia. simpl.
    rewrite IH by lia. replace (s - k) with 0 by lia. done.
  - destruct (k <? s) eqn:Hks.
    + apply Z.ltb_lt in Hks. rewrite IH by lia.
      replace (Z.to_nat (s - k)) with (Datatypes.S (Z.to_nat (s - (k + 1)))) by lia.
      done.
    + apply Z.ltb_ge in Hks. replace (s - k) with 0 by lia. simpl.
      rewrite IH by lia. replace (s - k) with 0 by lia. done.
Qed.

(** Once the skipping is over, the loop stops when [generated_elements]
    reaches [limit + skipped_elements]. *)
Lemma skip_and_limit_after_skip s l input g :
  0 ≤ s → 0 < l → 0 ≤ g ≤ l + s →
  for_each (skip_and_limit_turn (PyInt s) (PyInt l)) (g, s) (from_list input)
  = from_list (take (Z.to_nat (l + s - g)) input).
Proof.
  intros Hs Hl. revert g. induction input as [|x input IH]; intros g Hg.
  { by rewrite take_nil. }
  rewrite for_each_cons. unfold skip_and_limit_turn at 1, limit_reached, still_skipping.
  replace (l =? 0) with false by (symmetry; apply Z.eqb_neq; lia). simpl.
  destruct (g - s =? l) eqn:Hgl.
  - apply Z.eqb_eq in Hgl. replace (l + s - g) with 0 by lia. done.
  - apply Z.eqb_neq in Hgl.
    replace (s <? s) with false by (symmetry; apply Z.ltb_ge; lia).
    rewrite andb_false_r. rewrite IH by lia.
    replace (Z.to_nat (l + s - g)) with (Datatypes.S (Z.to_nat (l + s - (g + 1)))) by lia.
    done.
Qed.

Lemma skip_and_limit_skipping s l input k :
  0 < l → 0 ≤ k ≤ s →
  for_each (skip_and_limit_turn (PyInt s) (PyInt l)) (0, k) (from_list input)
  = from_list (take (Z.to_nat (l + s)) (drop (Z.to_nat (s - k)) input)).
Proof.
  intros Hl. revert k. induction input as [|x input IH]; intros k Hk.
  { by rewrite drop_nil, take_nil. }
  destruct (decide (k = s)) as [->|Hne].
  { rewrite skip_and_limit_after_skip by lia.
    replace (s - s) with 0 by lia. replace (l + s - 0) with (l + s) by lia. done. }
  rewrite for_each_cons. unfold skip_and_limit_turn at 1, limit_reached, still_skipping.
  replace (l =? 0) with false by (symmetry; apply Z.eqb_neq; lia). simpl.
  replace (0 - k =? l) with false by (symmetry; apply Z.eqb_neq; lia).
  replace (s =? 0) with false by (symmetry; apply Z.eqb_neq; lia).
  replace (k <? s) with true by (symmetry; apply Z.ltb_lt; lia). simpl.
  rewrite IH by lia.
  replace (Z.to_nat (s - k)) with (Datatypes.S (Z.to_nat (s - (k + 1)))) by lia.
  done.
Qed.

(** What the adapter yields for non-negative integers [skip = s] and
    [limit = l]: everything behind the first [s] elements when [l = 0],
    and otherwise the [l + s] elements (not [l]) behind the first [s]. *)
Lemma with_skip_and_limit_yields s l input :
  0 ≤ s → 0 ≤ l →
  _with_skip_and_limit (from_list input) (PyInt s) (PyInt l)
  = from_list (if decide (l = 0) then drop (Z.to_nat s) input
               else take (Z.to_nat (l + s)) (drop (Z.to_nat s) input)).
Proof.
  intros Hs Hl. unfold _with_skip_and_limit, valid_arg.
  replace (0 <=? s) with true by (symmetry; apply Z.leb_le; lia).
  replace (0 <=? l) with true by (symmetry; apply Z.leb_le; lia). simpl.
  case_decide as Hl0.
  - subst l. rewrite skip_and_limit_unbounded by lia. by rewrite Z.sub_0_r.
  - rewrite skip_and_limit_skipping by lia. by rewrite Z.sub_0_r.
Qed.

End SkipLimit.

(** ** The duplicate filter *)

Section NoDuplicates.

Implicit Types (seen : gset string) (l : list association) (a b : association).

Lemma no_duplicates_loop seen l :
  for_each no_duplicates_turn seen (from_list l) = from_list (survivors seen l).
Proof.
  revert seen. induction l as [|a l IH]; intros seen; [done|].
  rewrite for_each_cons. unfold no_duplicates_turn at 1. simpl.
  case_decide; rewrite IH; done.
Qed.

Lemma no_duplicates_survivors l :
  _unit_associations_no_duplicates (from_list l) = from_list (survivors ∅ l).
Proof. apply no_duplicates_loop. Qed.

Lemma survivors_sublist seen l : survivors seen l `sublist_of` l.
Proof.
  revert seen. induction l as [|a l IH]; intros seen; simpl; [done|].
  case_decide; [apply sublist_cons | apply sublist_skip]; apply IH.
Qed.

Lemma survivors_unseen seen l a :
  a ∈ survivors seen l → association_id a ∉ seen.
Proof.
  revert seen. induction l as [|b l IH]; intros seen; simpl.
  { intros ?%elem_of_nil. done. }
  case_decide as Hb.
  - apply IH.
  - intros [->|Hin]%elem_of_cons; [done|].
    apply IH in Hin. set_solver.
Qed.

Lemma survivors_NoDup seen l : NoDup (association_id <$> survivors seen l).
Proof.
  revert seen. induction l as [|a l IH]; intros seen; simpl.
  { constructor. }
  case_decide as Ha; [apply IH|].
  rewrite fmap_cons. constructor; [|apply IH].
  intros (b & Hid & Hb)%list_elem_of_fmap.
  apply survivors_unseen in Hb. set_solver.
Qed.

Lemma survivors_cover seen l a :
  a ∈ l → association_id a ∉ seen →
  ∃ b, b ∈ survivors seen l ∧ association_id b = association_id a.
Proof.
  revert seen. induction l as [|c l IH]; intros seen; simpl.
  { intros ?%elem_of_nil. done. }
  intros [->|Hin]%elem_of_cons Hseen.
  - rewrite decide_False by done. exists c. split; [left|done].
  - case_decide as Hc.
    + apply IH; done.
    + destruct (decide (association_id a = association_id c)) as [Heq|Hne].
      * exists c. split; [left|done].
      * destruct (IH ({[association_id c]} ∪ seen) Hin) as (b & Hb & Hid);
          [set_solver|].
        exists b. split; [by right|done].
Qed.

(** A survivor is the first record of the input with its key. *)
Lemma survivors_first seen l b :
  b ∈ survivors seen l →
  ∃ l1 l2, l = l1 ++ b :: l2 ∧
           ∀ x, x ∈ l1 → association_id x ≠ association_id b.
Proof.
  revert seen. induction l as [|a l IH]; intros seen; simpl.
  { intros ?%elem_of_nil. done. }
  case_decide as Ha.
  - intros Hb. pose proof (survivors_unseen _ _ _ Hb) as Hunseen.
    destruct (IH _ Hb) as (l1 & l2 & -> & Hl1).
    exists (a :: l1), l2. split; [done|].
    intros x [->|Hx]%elem_of_cons; [congruence|by apply Hl1].
  - intros [->|Hb]%elem_of_cons.
    + exists [], l. split; [done|]. intros x ?%elem_of_nil. done.
    + pose proof (survivors_unseen _ _ _ Hb) as Hunseen.
      destruct (IH _ Hb) as (l1 & l2 & -> & Hl1).
      exists (a :: l1), l2. split; [done|].
      intros x [->|Hx]%elem_of_cons; [set_solver|by apply Hl1].
Qed.

End NoDuplicates.

(** The joined key is a function of the identity key. *)
Lemma association_id_identity_key a b :
  identity_key a = identity_key b → association_id a = association_id b.
Proof. unfold identity_key, association_id. by intros [= -> ->]. Qed.

(** On a stream sorted by [created] whose joined keys do not collide, the
    filter keeps the records in their order, keeps no two records with the
    same identity key, and keeps for every record of the input the
    earliest record with its identity key. *)
Lemma no_duplicates_keeps_earliest (l : list association) :
  (∀ x y, x ∈ l → y ∈ l →
     association_id x = association_id y → identity_key x = identity_key y) →
  StronglySorted (λ x y, created x ≤ created y) l →
  let out := yields (_unit_associations_no_duplicates (from_list l)) in
  out `sublist_of` l ∧
  NoDup (identity_key <$> out) ∧
  ∀ a, a ∈ l →
    ∃ b, b ∈ out ∧ identity_key b = identity_key a ∧ created b ≤ created a.
Proof.
  intros Hinj Hsorted. simpl.
  rewrite no_duplicates_survivors, yields_from_list.
  split; [apply survivors_sublist|]. split.
  - apply (NoDup_fmap_1 (λ p : string * string, p.1 +:+ "+" +:+ p.2)).
    rewrite <- list_fmap_compose. apply survivors_NoDup.
  - intros a Ha.
    destruct (survivors_cover ∅ l a Ha) as (b & Hb & Hid); [set_solver|].
    exists b. split; [done|].
    assert (b ∈ l) as Hbl by (eapply elem_of_sublist, survivors_sublist; done).
    split; [by apply Hinj|].
    destruct (survivors_first _ _ _ Hb) as (l1 & l2 & -> & Hl1).
    apply elem_of_app in Ha as [Ha|Ha]; [by apply Hl1 in Ha|].
    apply StronglySorted_app_1_r, StronglySorted_cons in Hsorted as [Hall _].
    apply elem_of_cons in Ha as [->|Ha]; [lia|].
    rewrite Forall_forall in Hall. by apply Hall.
Qed.

(** ** The merge *)

Section Merge.

Implicit Types (d : list (string * association)) (u : unit_doc) (k : string).

Lemma odict_get_set {V} k k' (v : V) (d : list (string * V)) :
  odict_get k (odict_set k' v d) = if decide (k = k') then Some v else odict_get k d.
Proof.
  induction d as [|[k0 v0] d IH]; simpl.
  { repeat case_decide; done. }
  repeat (case_decide; simpl; simplify_eq; try done).
Qed.

Lemma same_but_metadata_set d d' k a o :
  same_but_metadata d d' → odict_get k d' = Some a →
  same_but_metadata d (odict_set k (set_metadata a o) d').
Proof.
  intros Hsame Hk k' o'. rewrite odict_get_set. case_decide as Hkk.
  - subst k'. rewrite <- Hsame, Hk. done.
  - apply Hsame.
Qed.

Lemma merged_loop_present d d' (pre : list unit_doc) (rest : list pyobj) :
  same_but_metadata d d' →
  (∀ p, p ∈ pre → is_Some (odict_get (_id p) d)) →
  ∃ d'', same_but_metadata d d'' ∧
    for_each merged_turn d' (from_list ((Unit <$> pre) ++ rest))
    = Generator ((Yield <$> omap (attach d) pre)
                 ++ events (for_each merged_turn d'' (from_list rest)))
                (raised (for_each merged_turn d'' (from_list rest))).
Proof.
  revert d'. induction pre as [|p pre IH]; intros d' Hsame Hpre.
  { exists d'. split; [done|]. simpl. by destruct (for_each _ _ _). }
  destruct (Hpre p) as [a Ha]; [left|].
  pose proof (Hsame (_id p) (Unit p)) as Hp. rewrite Ha in Hp.
  destruct (odict_get (_id p) d') as [a'|] eqn:Ha'; [|done].
  apply (inj Some) in Hp.
  destruct (IH (odict_set (_id p) (set_metadata a' (Unit p)) d')) as (d'' & Hd'' & Heq).
  { by apply same_but_metadata_set. }
  { intros q Hq. apply Hpre. by right. }
  exists d''. split; [done|].
  rewrite fmap_cons. simpl app. rewrite for_each_cons.
  unfold merged_turn at 1. simpl subscript_id. cbv iota beta.
  rewrite Ha'. cbv zeta. rewrite Heq, Hp.
  unfold emit, attach. simpl. rewrite Ha. done.
Qed.

End Merge.

(** ** The association-order pass *)

Section Ordered.

Implicit Types (units : list unit_doc) (d : gmap string pyobj) (k : string).

Lemma dict_by_id_units d units :
  dict_by_id (events (from_list (Unit <$> units))) None d
  = ([], inr (units_by_id d units)).
Proof.
  revert d. induction units as [|u units IH]; intros d; [done|].
  simpl. apply IH.
Qed.

Lemma units_by_id_lookup d units k o :
  units_by_id d units !! k = Some o →
  (o ∈ Unit <$> units ∧ subscript_id o = inr k) ∨ d !! k = Some o.
Proof.
  revert d. induction units as [|u units IH]; intros d; simpl; [by right|].
  intros [[Hin Hid]|Hd]%IH.
  - left. split; [by right|done].
  - apply lookup_insert_Some in Hd as [[<- <-]|[_ Hd]]; [|by right].
    left. split; [left|done].
Qed.

Lemma units_by_id_dom d units k :
  is_Some (units_by_id d units !! k) ↔ k ∈ _id <$> units ∨ is_Some (d !! k).
Proof.
  revert d. induction units as [|u units IH]; intros d; simpl.
  { rewrite elem_of_nil. naive_solver. }
  rewrite IH, lookup_insert_is_Some, elem_of_cons.
  destruct (decide (_id u = k)); naive_solver.
Qed.

(** The loop over the requested ids: it yields while the ids are in the
    dictionary. *)
Lemma ordered_loop_present d (pre rest : list string) :
  (∀ i, i ∈ pre → is_Some (d !! i)) →
  for_each (ordered_turn d) () (from_list (pre ++ rest))
  = Generator ((Yield <$> omap (λ i, d !! i) pre)
               ++ events (for_each (ordered_turn d) () (from_list rest)))
              (raised (for_each (ordered_turn d) () (from_list rest))).
Proof.
  induction pre as [|i pre IH]; intros Hpre.
  { simpl. by destruct (for_each _ _ _). }
  destruct (Hpre i) as [o Ho]; [left|].
  simpl app. rewrite for_each_cons. unfold ordered_turn at 1. rewrite Ho.
  rewrite IH by (intros j Hj; apply Hpre; by right).
  done.
Qed.

Lemma yields_Generator_app {A} (l : list A) (evs : list (event A)) r :
  yields (Generator ((Yield <$> l) ++ evs) r) = l ++ yields (Generator evs r).
Proof.
  unfold yields; simpl. rewrite omap_app. f_equal.
  induction l as [|x l IH]; simpl; [done|]. by f_equal.
Qed.

End Ordered.

(** ** The association cursor *)

Section AssociationCursor.

Implicit Types (criteria : UnitAssociationCriteria) (repo_id : string).

(** The sort applied to the association cursor: the caller's sort when it
    holds [('created', ASCENDING)] somewhere, and otherwise the caller's
    sort behind that key. *)
Lemma unit_associations_cursor_sort repo_id criteria :
  cur_sort (_unit_associations_cursor repo_id criteria).1.1
  = if decide (created_sort_tuple ∈ callers_sort criteria)
    then callers_sort criteria
    else created_sort_tuple :: callers_sort criteria.
Proof.
  unfold _unit_associations_cursor, callers_sort.
  destruct (association_sort criteria) as [[|x l]|]; simpl;
    repeat case_decide; simpl; try done; exfalso; set_solver.
Qed.

Lemma unit_associations_cursor_accesses repo_id criteria :
  (_unit_associations_cursor repo_id criteria).2
  = [Find RepoContentUnit;
     Sort RepoContentUnit (cur_sort (_unit_associations_cursor repo_id criteria).1.1)].
Proof.
  unfold _unit_associations_cursor.
  destruct (association_sort criteria) as [[|x l]|]; simpl;
    repeat case_decide; done.
Qed.

Lemma unit_associations_cursor_collection repo_id criteria :
  cur_collection (_unit_associations_cursor repo_id criteria).1.1 = RepoContentUnit.
Proof.
  unfold _unit_associations_cursor.
  destruct (association_sort criteria) as [[|x l]|]; simpl;
    repeat case_decide; done.
Qed.

(** The call changes no attribute of the criteria but [association_sort],
    and does not change whether that one is [None]. *)
Lemma unit_associations_cursor_criteria repo_id criteria :
  let criteria' := (_unit_associations_cursor repo_id criteria).1.2 in
  criteria' = set_association_sort criteria (association_sort criteria') ∧
  (association_sort criteria' = None ↔ association_sort criteria = None).
Proof.
  unfold _unit_associations_cursor.
  destruct criteria as [t af afs [[|x l]|] uf ufs us lim sk rd]; simpl;
    repeat case_decide; simpl; done.
Qed.

End AssociationCursor.

(** ** The whole call *)

Section GetUnits.

Context (db : Collaborators).
Implicit Types (criteria : UnitAssociationCriteria) (repo_id : string).

Lemma no_duplicates_events_raised seen (evs : list (event association)) up :
  raised (for_each_events no_duplicates_turn seen evs up) = up ∧
  accesses (for_each_events no_duplicates_turn seen evs up)
  = accesses (Generator evs up).
Proof.
  revert seen. induction evs as [|[a|c] evs IH]; intros seen; [done|..].
  - cbn [for_each_events]. unfold no_duplicates_turn. case_decide.
    + apply IH.
    + destruct (IH ({[association_id a]} ∪ seen)) as [Hr Hacc].
      split; [exact Hr|exact Hacc].
  - cbn [for_each_events]. destruct (IH seen) as [Hr Hacc].
    split; [exact Hr|].
    unfold accesses in *; simpl in *. by f_equal.
Qed.

(** The association stream the call indexes: it never raises, and pulling
    it iterates the association cursor. *)
Lemma association_stream (c : Cursor) (dedup : bool) :
  cur_collection c = RepoContentUnit →
  let g := if dedup then _unit_associations_no_duplicates (association_documents db c)
           else association_documents db c in
  raised g = None ∧ accesses g = [Iterate RepoContentUnit].
Proof.
  intros Hc. assert (accesses (association_documents db c) = [Iterate RepoContentUnit]).
  { unfold association_documents. rewrite Hc.
    unfold accesses; simpl. f_equal. apply (accesses_from_list (iterate_associations db c)). }
  destruct dedup; cbv zeta; [|done].
  unfold _unit_associations_no_duplicates, for_each.
  destruct (no_duplicates_events_raised ∅ (events (association_documents db c))
              (raised (association_documents db c))) as [Hr Hacc].
  split; [exact Hr|]. rewrite Hacc. by destruct (association_documents db c).
Qed.

Lemma unit_type_ids_of_accesses repo_id criteria :
  (unit_type_ids_of db repo_id criteria).2
  = match type_ids criteria with
    | [] => [Find RepoContentUnit; Distinct RepoContentUnit "unit_type_id";
             Iterate RepoContentUnit]
    | _ :: _ => []
    end.
Proof. unfold unit_type_ids_of. by destruct (type_ids criteria). Qed.

(** The criteria the caller finds after the call is the one the
    association cursor builder left. *)
Lemma get_units_criteria_after repo_id criteria as_generator :
  criteria_after (get_units db repo_id (Some criteria) as_generator)
  = (_unit_associations_cursor repo_id criteria).1.2.
Proof.
  unfold get_units. simpl.
  destruct (_unit_associations_cursor repo_id criteria) as [[cursor criteria'] acc].
  simpl. destruct (raised _); [done|].
  destruct (unit_type_ids_of db repo_id criteria') as [tys acc_types].
  by destruct as_generator.
Qed.

End GetUnits.

(** ** The duplicate filter, against the specification *)

(** C10: there are two associations with distinct (type_id, unit_id)
    identity keys whose joined keys [type_id + '+' + unit_id] are equal,
    type "a+b" with unit "c" and type "a" with unit "b+c"; the filter drops
    the later one although it is not a duplicate of the earlier one. *)
Theorem association_id_collision :
  ∃ earlier later : association,
    identity_key earlier ≠ identity_key later ∧
    association_id earlier = association_id later ∧
    created earlier < created later ∧
    yields (_unit_associations_no_duplicates (from_list [earlier; later]))
    = [earlier].
Proof.
  exists (linked "a+b" "c" 1), (linked "a" "b+c" 2).
  split; [discriminate|]. split; [reflexivity|]. split; [reflexivity|].
  vm_compute. reflexivity.
Qed.

(** C6, at the stream [("a+b", "c", created 1); ("a", "b+c", created 2)]:
    the stream is sorted by [created] and holds the identity key
    ("a", "b+c"), yet the output of the filter holds no record with that
    key, so it does not hold one record per distinct identity key. *)
Theorem no_duplicates_loses_identity_key :
  let input := [linked "a+b" "c" 1; linked "a" "b+c" 2] in
  let out := yields (_unit_associations_no_duplicates (from_list input)) in
  StronglySorted (λ x y, created x ≤ created y) input ∧
  identity_key (linked "a" "b+c" 2) ∈ (identity_key <$> input) ∧
  (identity_key (linked "a" "b+c" 2) ∉ identity_key <$> out) ∧
  (out `sublist_of` input).
Proof.
  cbv zeta. rewrite no_duplicates_survivors, yields_from_list.
  split.
  { repeat constructor; simpl; lia. }
  split; [right; left|].
  split; [|apply survivors_sublist].
  vm_compute. intros H. inversion H as [|? ? ? Hin]. inversion Hin.
Qed.

(** ** The skip/limit adapter, against the specification *)

(** C1, at the scenario of the specification: with skip=1 and limit=1 over
    [a, b, c] the adapter yields [b, c], two elements and not the window
    [input[1:2] = [b]] that the limit allows. *)
Theorem with_skip_and_limit_passes_limit {A : Type} (a b c : A) :
  _with_skip_and_limit (from_list [a; b; c]) (PyInt 1) (PyInt 1)
  = from_list [b; c] ∧
  slice 1 1 [a; b; c] = [b].
Proof. split; reflexivity. Qed.

(** Without a skip the adapter yields the window of the specification. *)
Lemma with_limit_only_yields_slice {A : Type} (l : Z) (input : list A) :
  0 < l →
  _with_skip_and_limit (from_list input) (PyInt 0) (PyInt l)
  = from_list (slice 0 (Z.to_nat l) input).
Proof.
  intros Hl. rewrite with_skip_and_limit_yields by lia.
  rewrite decide_False by lia. unfold slice. by rewrite Z.add_0_r.
Qed.

(** ** The association cursor, against the specification *)

(** The sort applied to the association cursor always holds
    [('created', ASCENDING)]; it is the caller's sort as given, or that
    sort behind [('created', ASCENDING)]; and [('created', ASCENDING)] is
    its first key exactly when the caller's sort does not hold it or
    holds it first. *)
Lemma created_sort_key_applied (repo_id : string) (criteria : UnitAssociationCriteria) :
  let applied := cur_sort (_unit_associations_cursor repo_id criteria).1.1 in
  Sort RepoContentUnit applied ∈ (_unit_associations_cursor repo_id criteria).2 ∧
  created_sort_tuple ∈ applied ∧
  (applied = callers_sort criteria ∨
   applied = created_sort_tuple :: callers_sort criteria) ∧
  (created_is_first_key (_unit_associations_cursor repo_id criteria).1.1 ↔
   created_sort_tuple ∉ callers_sort criteria ∨
   head (callers_sort criteria) = Some created_sort_tuple).
Proof.
  cbv zeta. unfold created_is_first_key.
  rewrite unit_associations_cursor_accesses.
  rewrite unit_associations_cursor_sort.
  split; [right; left|].
  case_decide as Hin.
  - split; [done|]. split; [by left|]. split; [by right|].
    intros [Hout|Hhead]; done.
  - split; [left|]. split; [by right|]. split; [by left|done].
Qed.

(** C7, for a caller who sorts by owner and then by [created], on a
    repository where a unit was associated first by "yum" and then by
    "admin": the sort is applied as the caller gave it, [owner_id] is its
    first key and not [created], the association stream reaches the
    duplicate filter with the later association first, and the filter
    keeps the later association. *)
Theorem owner_sort_puts_created_second :
  let db := Memory.collaborators twice_associated plain in
  let cursor := (_unit_associations_cursor "repo" by_owner_then_created).1.1 in
  cur_sort cursor = [(SORT_OWNER_ID, SORT_ASCENDING); created_sort_tuple] ∧
  ¬ created_is_first_key cursor ∧
  created <$> yields (association_documents db cursor) = [2; 1] ∧
  created <$> yields (_unit_associations_no_duplicates (association_documents db cursor))
  = [2].
Proof.
  cbv zeta. split; [reflexivity|]. split.
  - unfold created_is_first_key. vm_compute. discriminate.
  - vm_compute. done.
Qed.

(** ** The criteria object, against the specification *)

(** C9 fails for [get_units_by_type]: the caller's [type_ids] is replaced
    by the type of the call. *)
Lemma get_units_by_type_overwrites_type_ids :
  criteria_after
    (get_units_by_type (Memory.collaborators one_rpm plain) "repo" "rpm"
       (Some srpm_only) false)
  ≠ srpm_only.
Proof. vm_compute. discriminate. Qed.

(** The list object behind [association_sort] is the one the cursor builder
    inserts into: a caller who sorts by owner finds the [created] key in
    front of it after the call. *)
Example association_sort_grows_in_place :
  association_sort
    (criteria_after
       (get_units (Memory.collaborators one_rpm plain) "repo" (Some by_owner) false))
  = Some [(SORT_CREATED, SORT_ASCENDING); (SORT_OWNER_ID, SORT_ASCENDING)].
Proof. vm_compute. done. Qed.

(** C9, amended: after [get_units] and [get_units_across_types] every
    attribute of the caller's criteria other than [association_sort] is as
    it was; after [get_units_by_type] so is every attribute other than
    [association_sort] and [type_ids], and [type_ids] is the one type of
    the call. *)
Theorem criteria_after_query (db : Collaborators) (repo_id type_id : string)
    (criteria : UnitAssociationCriteria) (as_generator : bool) :
  let after := criteria_after (get_units db repo_id (Some criteria) as_generator) in
  let after_across :=
    criteria_after (get_units_across_types db repo_id (Some criteria) as_generator) in
  let after_by_type :=
    criteria_after (get_units_by_type db repo_id type_id (Some criteria) as_generator) in
  after = set_association_sort criteria (association_sort after) ∧
  after_across = set_association_sort criteria (association_sort after_across) ∧
  after_by_type
  = set_association_sort (set_type_ids criteria [type_id]) (association_sort after_by_type).
Proof.
  cbv zeta. unfold get_units_across_types, get_units_by_type. simpl default.
  rewrite !get_units_criteria_after.
  split; [|split]; apply unit_associations_cursor_criteria.
Qed.

(** ** The merge, against the specification *)

(** C3 fails on the stream [u1, u2] when the map knows u2 only: the stream
    does not go on to u2. *)
Lemma merged_units_missing_id_is_fatal :
  ¬ drops_only_missing_records only_u2 [u1; u2]
      (_merged_units only_u2 (from_list (Unit <$> [u1; u2]))).
Proof. intros [Hr _]. vm_compute in Hr. discriminate. Qed.

(** C3, amended: at a unit whose id is missing from the map the merge
    raises [KeyError] for that id; the units before it have been yielded,
    each as its association with the unit as [metadata], and nothing is
    yielded after it. *)
Theorem merged_units_missing_id_ends_stream (d : list (string * association))
    (pre post : list unit_doc) (u : unit_doc) :
  (∀ p, p ∈ pre → is_Some (odict_get (_id p) d)) →
  odict_get (_id u) d = None →
  let g := _merged_units d (from_list (Unit <$> (pre ++ u :: post))) in
  raised g = Some (KeyError (_id u)) ∧
  yields g = omap (attach d) pre ∧
  length (yields g) = length pre.
Proof.
  intros Hpre Hu. cbv zeta. unfold _merged_units.
  rewrite fmap_app, fmap_cons.
  destruct (merged_loop_present d d pre (Unit u :: (Unit <$> post)))
    as (d' & Hsame & ->); [done|done|].
  assert (for_each merged_turn d' (from_list (Unit u :: (Unit <$> post)))
          = Generator [] (Some (KeyError (_id u)))) as ->.
  { rewrite for_each_cons. unfold merged_turn. simpl subscript_id. cbv iota beta.
    pose proof (Hsame (_id u) (Unit u)) as Hu'. rewrite Hu in Hu'.
    by destruct (odict_get (_id u) d'). }
  split; [done|]. rewrite yields_Generator_app, app_nil_r.
  split; [done|].
  clear -Hpre. induction pre as [|p pre IH]; [done|].
  destruct (Hpre p) as [a Ha]; [left|].
  simpl. unfold attach at 1. rewrite Ha. simpl. f_equal.
  apply IH. intros q Hq. apply Hpre. by right.
Qed.

Lemma merged_units_missing_id_ends_stream_witness :
  let g := _merged_units only_u2 (from_list (Unit <$> ([u2] ++ u1 :: [u2]))) in
  raised g = Some (KeyError (_id u1)) ∧
  yields g = omap (attach only_u2) [u2] ∧
  length (yields g) = length [u2].
Proof.
  apply (merged_units_missing_id_ends_stream only_u2 [u2] [u2] u1).
  - intros p Hp. apply list_elem_of_singleton in Hp. subst p.
    exists (linked "rpm" "u2" 1). reflexivity.
  - reflexivity.
Defined.

(** ** The association-order pass, against the specification *)

(** C4 fails for the requested ids [u1, u2] over the stream [u2]: the pass
    does not skip u1. *)
Lemma association_ordered_units_missing_id_is_fatal :
  ¬ skips_absent_ids ["u1"; "u2"] [u2]
      (_association_ordered_units ["u1"; "u2"] (from_list (Unit <$> [u2]))).
Proof. intros [Hr _]. vm_compute in Hr. discriminate. Qed.

Lemma units_by_id_requested (units : list unit_doc) (ids : list string) :
  (∀ i, i ∈ ids → i ∈ _id <$> units) →
  Forall2 (λ i o, subscript_id o = inr i ∧ o ∈ Unit <$> units) ids
    (omap (λ i, units_by_id ∅ units !! i) ids).
Proof.
  induction ids as [|i ids IH]; intros Hids; [constructor|].
  assert (is_Some (units_by_id ∅ units !! i)) as [o Ho].
  { apply units_by_id_dom. left. apply Hids. left. }
  cbn [omap list_omap]. rewrite Ho. constructor.
  - apply units_by_id_lookup in Ho as [[? ?]|Ho]; [done|].
    by rewrite lookup_empty in Ho.
  - apply IH. intros j Hj. apply Hids. by right.
Qed.

(** At a requested id without a unit the pass raises [KeyError]; the units
    of the ids before it have been yielded. *)
Lemma association_ordered_units_missing_id
    (pre post : list string) (k : string) (units : list unit_doc) :
  (∀ i, i ∈ pre → i ∈ _id <$> units) →
  k ∉ _id <$> units →
  let g := _association_ordered_units (pre ++ k :: post) (from_list (Unit <$> units)) in
  raised g = Some (KeyError k) ∧
  Forall2 (λ i o, subscript_id o = inr i ∧ o ∈ Unit <$> units) pre (yields g).
Proof.
  intros Hpre Hk. cbv zeta. unfold _association_ordered_units.
  change (raised (from_list (Unit <$> units))) with (@None exn).
  rewrite dict_by_id_units. cbv iota beta zeta.
  rewrite ordered_loop_present.
  2:{ intros i Hi. apply units_by_id_dom. left. by apply Hpre. }
  assert (for_each (ordered_turn (units_by_id ∅ units)) () (from_list (k :: post))
          = Generator [] (Some (KeyError k))) as ->.
  { rewrite for_each_cons. unfold ordered_turn.
    destruct (units_by_id ∅ units !! k) as [o|] eqn:Ho; [|done].
    exfalso. apply Hk.
    apply mk_is_Some, units_by_id_dom in Ho as [Hin|[? Hempty]]; [done|].
    by rewrite lookup_empty in Hempty. }
  cbn [events raised fmap list_fmap app].
  split; [done|].
  rewrite yields_Generator_app, app_nil_r. by apply units_by_id_requested.
Qed.

(** When every requested id has a unit the pass ends without an error and
    yields one unit per requested id, in the requested order. *)
Lemma association_ordered_units_all_present (ids : list string) (units : list unit_doc) :
  (∀ i, i ∈ ids → i ∈ _id <$> units) →
  let g := _association_ordered_units ids (from_list (Unit <$> units)) in
  raised g = None ∧
  Forall2 (λ i o, subscript_id o = inr i ∧ o ∈ Unit <$> units) ids (yields g).
Proof.
  intros Hids. cbv zeta. unfold _association_ordered_units.
  change (raised (from_list (Unit <$> units))) with (@None exn).
  rewrite dict_by_id_units. cbv iota beta zeta.
  pose proof (ordered_loop_present (units_by_id ∅ units) ids []) as Heq.
  rewrite app_nil_r in Heq. rewrite Heq.
  2:{ intros i Hi. apply units_by_id_dom. left. by apply Hids. }
  rewrite for_each_nil. cbn [events raised fmap list_fmap app].
  split; [done|].
  rewrite yields_Generator_app, app_nil_r. by apply units_by_id_requested.
Qed.

Lemma split_at_absent_spec (units : list unit_doc) (ids : list string) :
  let served := (split_at_absent units ids).1 in
  let unserved := (split_at_absent units ids).2 in
  ids = served ++ unserved ∧
  (∀ i, i ∈ served → i ∈ _id <$> units) ∧
  match unserved with
  | [] => True
  | k :: _ => k ∉ _id <$> units
  end.
Proof.
  induction ids as [|i ids IH]; simpl.
  { split; [done|]. split; [|done]. by intros i ?%elem_of_nil. }
  case_decide as Hi.
  2:{ simpl. split; [done|]. split; [|done]. by intros j ?%elem_of_nil. }
  destruct (split_at_absent units ids) as [served unserved]. simpl in *.
  destruct IH as (-> & Hserved & Hunserved).
  split; [done|]. split; [|done].
  intros j [->|Hj]%elem_of_cons; [done|by apply Hserved].
Qed.

(** C4, amended: the pass yields only units of the stream it was given and
    fabricates none; it yields, in the requested order, one unit for each
    requested id that comes before the first requested id without a unit;
    at that id it raises [KeyError], which ends the stream, and when there
    is no such id it ends without an error. *)
Theorem association_ordered_units_until_absent_id
    (ids : list string) (units : list unit_doc) :
  let g := _association_ordered_units ids (from_list (Unit <$> units)) in
  let served := (split_at_absent units ids).1 in
  let unserved := (split_at_absent units ids).2 in
  raised g = KeyError <$> head unserved ∧
  Forall2 (λ i o, subscript_id o = inr i) served (yields g) ∧
  Forall (λ o, o ∈ Unit <$> units) (yields g).
Proof.
  cbv zeta.
  destruct (split_at_absent_spec units ids) as (Hids & Hserved & Hunserved).
  destruct (split_at_absent units ids) as [served unserved]. simpl in *.
  assert (raised (_association_ordered_units ids (from_list (Unit <$> units)))
          = KeyError <$> head unserved ∧
          Forall2 (λ i o, subscript_id o = inr i ∧ o ∈ Unit <$> units) served
            (yields (_association_ordered_units ids (from_list (Unit <$> units)))))
    as [Hr Hall].
  { subst ids. destruct unserved as [|k post].
    - rewrite app_nil_r. by apply association_ordered_units_all_present.
    - by apply association_ordered_units_missing_id. }
  split; [done|]. split.
  - eapply Forall2_impl; [exact Hall|]. by intros i o [? ?].
  - apply Forall2_Forall_r with (Q := λ o, o ∈ Unit <$> units) in Hall; [done|].
    apply Forall_true. by intros i o [? ?].
Qed.

(** The requested ids [u2, u1, u2] over the stream [u2]: u2 is served once,
    and the pass ends at u1. *)
Example association_ordered_units_stops_at_u1 :
  let g := _association_ordered_units ["u2"; "u1"; "u2"] (from_list (Unit <$> [u2])) in
  yields g = [Unit u2] ∧ raised g = Some (KeyError "u1").
Proof. vm_compute. done. Qed.

(** ** Validation of skip and limit, against the specification *)

(** C5 fails for [skip = -1]: by the time the call fails, the association
    collection has been queried. *)
Lemma get_units_negative_skip_reaches_storage :
  ¬ fails_before_storage
      (get_units (Memory.collaborators one_rpm plain) "repo" (Some negative_skip) false).
Proof. intros [_ Hacc]. vm_compute in Hacc. discriminate. Qed.

Lemma with_skip_and_limit_invalid {A} (g : generator A) (skip limit : pyarg) :
  valid_arg skip = false ∨ valid_arg limit = false →
  _with_skip_and_limit g skip limit = Generator [] (Some AssertionError).
Proof.
  unfold _with_skip_and_limit. intros [->| ->]; [done|].
  by destruct (valid_arg skip).
Qed.

(** C5, amended: with a negative or non-integer skip or limit the
    skip/limit adapter raises [AssertionError] when the result is first
    pulled.  A call for a list raises it after the association collection
    has been found, sorted and iterated, and found again for the types when
    [type_ids] is empty, and before any unit collection is touched; a call
    for a generator makes the same storage calls and returns a generator
    that raises on its first pull. *)
Theorem get_units_invalid_pagination (db : Collaborators) (repo_id : string)
    (criteria : UnitAssociationCriteria) :
  valid_arg (skip criteria) = false ∨ valid_arg (limit criteria) = false →
  let listed := get_units db repo_id (Some criteria) false in
  let deferred := get_units db repo_id (Some criteria) true in
  returned listed = Raised AssertionError ∧
  returned deferred = AsGenerator (Generator [] (Some AssertionError)) ∧
  accessed deferred = accessed listed ∧
  accessed listed
  = [Find RepoContentUnit;
     Sort RepoContentUnit (cur_sort (_unit_associations_cursor repo_id criteria).1.1);
     Iterate RepoContentUnit]
    ++ match type_ids criteria with
       | [] => [Find RepoContentUnit; Distinct RepoContentUnit "unit_type_id";
                Iterate RepoContentUnit]
       | _ :: _ => []
       end.
Proof.
  intros Hinvalid. cbv zeta. unfold get_units. simpl default.
  pose proof (unit_associations_cursor_accesses repo_id criteria) as Hacc.
  pose proof (unit_associations_cursor_collection repo_id criteria) as Hcoll.
  destruct (unit_associations_cursor_criteria repo_id criteria) as [Hcrit _].
  destruct (_unit_associations_cursor repo_id criteria) as [[cursor criteria'] acc].
  simpl in Hacc, Hcoll, Hcrit. cbv zeta.
  destruct (association_stream db cursor (remove_duplicates criteria') Hcoll)
    as [Hr Hit].
  cbv zeta in Hr, Hit. rewrite Hr, Hit.
  pose proof (unit_type_ids_of_accesses db repo_id criteria') as Htys.
  destruct (unit_type_ids_of db repo_id criteria') as [tys acc_types].
  simpl in Htys.
  assert (skip criteria' = skip criteria ∧ limit criteria' = limit criteria
          ∧ type_ids criteria' = type_ids criteria) as (Hs & Hl & Ht).
  { rewrite Hcrit. done. }
  rewrite with_skip_and_limit_invalid by (by rewrite Hs, Hl).
  rewrite Ht in Htys. subst acc acc_types.
  destruct (association_sort criteria'); cbn; rewrite ?app_nil_r; done.
Qed.

Lemma get_units_invalid_pagination_witness :
  let db := Memory.collaborators one_rpm plain in
  let listed := get_units db "repo" (Some negative_skip) false in
  let deferred := get_units db "repo" (Some negative_skip) true in
  returned listed = Raised AssertionError ∧
  returned deferred = AsGenerator (Generator [] (Some AssertionError)) ∧
  accessed deferred = accessed listed ∧
  accessed listed
  = [Find RepoContentUnit; Sort RepoContentUnit [created_sort_tuple];
     Iterate RepoContentUnit]
    ++ [Find RepoContentUnit; Distinct RepoContentUnit "unit_type_id";
        Iterate RepoContentUnit].
Proof.
  apply (get_units_invalid_pagination (Memory.collaborators one_rpm plain) "repo"
           negative_skip).
  left. reflexivity.
Defined.

(** ** The chained unit stream, against the specification *)

(** What the chained stream yields: one cursor object per unit type, and
    no unit document. *)
Lemma chained_units_yields (db : Collaborators) (unit_type_ids : list string)
    (criteria : UnitAssociationCriteria) (ids : list string) :
  yields (chained_units db unit_type_ids criteria ids)
  = (λ t, CursorObj (_associated_units_by_type_cursor db t criteria ids).1)
    <$> unit_type_ids.
Proof.
  unfold chained_units, itertools_chain, unit_cursors, yields.
  cbn [events raised]. rewrite app_nil_r.
  induction unit_type_ids as [|t tys IH]; [done|].
  rewrite bind_cons, omap_app, IH, fmap_cons. done.
Qed.

(** C2, at a repository with one rpm: the cursor over the rpm collection
    would yield the unit when iterated, but the chained stream yields the
    cursor object itself, and the call fails with [TypeError] when the
    merge subscripts it. *)
Theorem chained_units_yields_cursor_object :
  let db := Memory.collaborators one_rpm plain in
  let cursor := (_associated_units_by_type_cursor db "rpm" plain ["u1"]).1 in
  iterate_units db cursor = [mkUnit "u1" [("name", VStr "bash")]] ∧
  yields (chained_units db ["rpm"] plain ["u1"]) = [CursorObj cursor] ∧
  returned (get_units db "repo" None false) = Raised TypeError.
Proof. vm_compute. done. Qed.

(** ** Type discovery, against the specification *)

Section Sorted.

Implicit Types (l : list string) (x y : string).

Lemma insert_by_Permutation {A} (lt : A → A → bool) (x : A) (l : list A) :
  insert_by lt x l ≡ₚ x :: l.
Proof.
  induction l as [|y l IH]; simpl; [done|].
  destruct (lt x y); [done|]. rewrite IH. apply Permutation_swap.
Qed.

Lemma sort_by_Permutation {A} (lt : A → A → bool) (l : list A) :
  sort_by lt l ≡ₚ l.
Proof.
  unfold sort_by. rewrite <- (app_nil_r l) at 2. generalize (@nil A) as acc.
  induction l as [|x l IH]; intros acc; simpl; [done|].
  rewrite IH, insert_by_Permutation. by rewrite Permutation_middle.
Qed.

Lemma ltb_false_leb x y : String.ltb x y = false → String.leb y x = true.
Proof.
  unfold String.ltb, String.leb. rewrite (String.compare_antisym x y).
  by destruct (String.compare y x).
Qed.

Lemma ltb_true_leb x y : String.ltb x y = true → String.leb x y = true.
Proof.
  unfold String.ltb, String.leb. by destruct (String.compare x y).
Qed.

Lemma insert_sorted_Sorted x l :
  Sorted (λ a b, String.leb a b = true) l →
  Sorted (λ a b, String.leb a b = true) (insert_by String.ltb x l).
Proof.
  induction l as [|y l IH]; intros Hl; simpl.
  { repeat constructor. }
  destruct (String.ltb x y) eqn:Hxy.
  - constructor; [done|]. constructor. by apply ltb_true_leb.
  - apply Sorted_inv in Hl as [Hl Hhd]. constructor; [by apply IH|].
    destruct l as [|z l]; simpl.
    + constructor. by apply ltb_false_leb.
    + destruct (String.ltb x z); constructor.
      * by apply ltb_false_leb.
      * by inversion Hhd.
Qed.

(** [sorted] puts a list of strings in ascending order and keeps each
    string as often as it occurs. *)
Lemma sorted_ascending l :
  Sorted (λ a b, String.leb a b = true) (sorted l) ∧ sorted l ≡ₚ l.
Proof.
  split; [|apply sort_by_Permutation].
  unfold sorted, sort_by.
  assert (Sorted (λ a b, String.leb a b = true) []) as Hnil by constructor.
  revert Hnil. generalize (@nil string) as acc.
  induction l as [|x l IH]; intros acc Hacc; simpl; [done|].
  apply IH. by apply insert_sorted_Sorted.
Qed.

End Sorted.

(** With no [type_ids] in the criteria, the types of the call are the
    [unit_type_id] of every association document of the repository, one
    entry per document, sorted. *)
Lemma unit_type_ids_discovered (db : Collaborators) (repo_id : string)
    (criteria : UnitAssociationCriteria) :
  type_ids criteria = [] →
  (unit_type_ids_of db repo_id criteria).1
  = sorted (unit_type_id <$>
            iterate_associations db
              (mkCursor RepoContentUnit {[ "repo_id" := Is (VStr repo_id) ]}
                 (Some ["unit_type_id"]) [])).
Proof. intros Hnone. unfold unit_type_ids_of. by rewrite Hnone. Qed.

(** The scenario of the specification, one association per type. *)
Example zeta_alpha_in_order :
  let db :=
    Memory.collaborators
      (Memory.mkStore [linked "zeta" "u1" 1; linked "alpha" "u2" 2] (λ _, []) (λ _, []))
      plain in
  (unit_type_ids_of db "repo" plain).1 = ["alpha"; "zeta"].
Proof. vm_compute. done. Qed.

(** C8, at a repository with one association of type zeta and two of type
    alpha: the list of types holds alpha twice, and a call that pulls the
    whole chained stream builds the cursor over the alpha collection twice. *)
Theorem unit_type_ids_repeat_a_type :
  let db := Memory.collaborators zeta_alpha_alpha plain in
  (unit_type_ids_of db "repo" plain).1 = ["alpha"; "alpha"; "zeta"] ∧
  filter (λ a, a = Find (type_units_collection "alpha"))
    (accessed (get_units db "repo" (Some skip_three) false))
  = [Find (type_units_collection "alpha"); Find (type_units_collection "alpha")].
Proof. vm_compute. done. Qed.

(** * Further properties of the stages *)

(** ** The skip/limit adapter, case by case *)

Lemma for_each_passes_all {A S : Type} (body : S → A → turn A S) :
  (∀ s a, ∃ s', body s a = Next (Some a) s') →
  ∀ s evs up, for_each_events body s evs up = Generator evs up.
Proof.
  intros Hbody s evs up. revert s.
  induction evs as [|[a|c] evs IH]; intros s; simpl; [done|..].
  - destruct (Hbody s a) as [s' ->]. by rewrite IH.
  - by rewrite IH.
Qed.

Lemma for_each_ext {A B S : Type} (body body' : S → A → turn B S) :
  (∀ s a, body s a = body' s a) →
  ∀ s g, for_each body s g = for_each body' s g.
Proof.
  intros Hbody s [evs up]. unfold for_each. simpl. revert s.
  induction evs as [|[a|c] evs IH]; intros s; simpl; [done|..].
  - rewrite Hbody. destruct (body' s a) as [[b|] s'| |e]; by rewrite ?IH.
  - by rewrite IH.
Qed.

Lemma skip_none_as_zero {A : Type} (limit : pyarg) (counters : Z * Z) (x : A) :
  skip_and_limit_turn PyNone limit counters x
  = skip_and_limit_turn (PyInt 0) limit counters x.
Proof. by destruct counters. Qed.

Lemma limit_none_as_zero {A : Type} (skip : pyarg) (counters : Z * Z) (x : A) :
  skip_and_limit_turn skip PyNone counters x
  = skip_and_limit_turn skip (PyInt 0) counters x.
Proof. by destruct counters. Qed.

(** For non-negative integers [skip = s] and [limit = l] over a list, the
    adapter yields everything behind the first [s] elements when [l = 0],
    and otherwise the first [l + s] elements behind the first [s]; it
    never raises. *)
Theorem skip_and_limit_window {A : Type} (s l : Z) (input : list A) :
  0 ≤ s → 0 ≤ l →
  _with_skip_and_limit (from_list input) (PyInt s) (PyInt l)
  = from_list (if decide (l = 0) then drop (Z.to_nat s) input
               else take (Z.to_nat (l + s)) (drop (Z.to_nat s) input)).
Proof. apply with_skip_and_limit_yields. Qed.

Lemma skip_and_limit_window_witness :
  _with_skip_and_limit (from_list [10; 20; 30; 40; 50; 60]) (PyInt 2) (PyInt 1)
  = from_list (if decide (1 = 0) then drop (Z.to_nat 2) [10; 20; 30; 40; 50; 60]
               else take (Z.to_nat (1 + 2)) (drop (Z.to_nat 2) [10; 20; 30; 40; 50; 60])).
Proof. apply (skip_and_limit_window 2 1 [10; 20; 30; 40; 50; 60]); lia. Defined.

(** With [skip = None] and [limit = None] the adapter is transparent: the
    stream it returns yields the same records, makes the same storage
    calls and ends with the same exception as the stream it was given. *)
Theorem skip_and_limit_none_is_transparent {A : Type} (iterator : generator A) :
  _with_skip_and_limit iterator PyNone PyNone = iterator.
Proof.
  unfold _with_skip_and_limit, for_each. simpl.
  rewrite for_each_passes_all; [by destruct iterator|].
  intros [g k] a. unfold skip_and_limit_turn. simpl. eauto.
Qed.

(** A limit of [0] is no limit: with [limit = 0], as with [limit = None],
    the adapter yields every element behind the first [s]. *)
Theorem skip_without_limit_drops_prefix {A : Type} (limit : pyarg) (s : Z)
    (input : list A) :
  limit = PyNone ∨ limit = PyInt 0 → 0 ≤ s →
  _with_skip_and_limit (from_list input) (PyInt s) limit
  = from_list (drop (Z.to_nat s) input).
Proof.
  intros Hlimit Hs.
  assert (_with_skip_and_limit (from_list input) (PyInt s) limit
          = _with_skip_and_limit (from_list input) (PyInt s) (PyInt 0)) as ->.
  { destruct Hlimit as [-> | ->]; [|done].
    unfold _with_skip_and_limit. simpl. destruct (0 <=? s); simpl; [|done].
    apply for_each_ext. intros. apply limit_none_as_zero. }
  rewrite with_skip_and_limit_yields by lia. by rewrite decide_True.
Qed.

Lemma skip_without_limit_drops_prefix_witness :
  _with_skip_and_limit (from_list [10; 20; 30]) (PyInt 1) (PyInt 0)
  = from_list (drop (Z.to_nat 1) [10; 20; 30]).
Proof.
  apply (skip_without_limit_drops_prefix (PyInt 0) 1 [10; 20; 30]);
    [right; reflexivity | lia].
Defined.

(** Without a skip ([None] or [0]) a positive limit [l] is exact: the
    adapter yields the first [l] elements. *)
Theorem limit_without_skip_takes_prefix {A : Type} (skip : pyarg) (l : Z)
    (input : list A) :
  skip = PyNone ∨ skip = PyInt 0 → 0 < l →
  _with_skip_and_limit (from_list input) skip (PyInt l)
  = from_list (take (Z.to_nat l) input).
Proof.
  intros Hskip Hl.
  assert (_with_skip_and_limit (from_list input) skip (PyInt l)
          = _with_skip_and_limit (from_list input) (PyInt 0) (PyInt l)) as ->.
  { destruct Hskip as [-> | ->]; [|done].
    unfold _with_skip_and_limit. simpl. destruct (0 <=? l); simpl; [|done].
    apply for_each_ext. intros. apply skip_none_as_zero. }
  rewrite with_skip_and_limit_yields by lia.
  rewrite decide_False by lia. by rewrite Z.add_0_r.
Qed.

Lemma limit_without_skip_takes_prefix_witness :
  _with_skip_and_limit (from_list [10; 20; 30]) PyNone (PyInt 2)
  = from_list (take (Z.to_nat 2) [10; 20; 30]).
Proof.
  apply (limit_without_skip_takes_prefix PyNone 2 [10; 20; 30]);
    [left; reflexivity | lia].
Defined.

(** ** The duplicate filter, by joined key *)

Lemma survivors_fixed (seen : gset string) (l : list association) :
  (∀ a, a ∈ l → association_id a ∉ seen) →
  NoDup (association_id <$> l) →
  survivors seen l = l.
Proof.
  revert seen. induction l as [|a l IH]; intros seen Hseen Hnodup; [done|].
  simpl. rewrite decide_False by (apply Hseen; left).
  rewrite fmap_cons in Hnodup. apply NoDup_cons in Hnodup as [Ha Hnodup].
  f_equal. apply IH; [|done].
  intros b Hb. apply not_elem_of_union. split.
  - intros Heq%elem_of_singleton. apply Ha. rewrite <- Heq.
    by apply list_elem_of_fmap_2.
  - apply Hseen. by right.
Qed.

(** What the filter lets through, for every list of associations: the
    output keeps the order of the input, holds no two records with the
    same joined key, holds a record for the joined key of every input
    record, and each of its records is the first of the input with its
    joined key.  The filter never raises. *)
Theorem no_duplicates_first_of_each_joined_key (l : list association) :
  let g := _unit_associations_no_duplicates (from_list l) in
  raised g = None ∧
  (yields g `sublist_of` l) ∧
  NoDup (association_id <$> yields g) ∧
  (∀ a, a ∈ l → ∃ b, b ∈ yields g ∧ association_id b = association_id a) ∧
  (∀ b, b ∈ yields g →
     ∃ l1 l2, l = l1 ++ b :: l2 ∧
              ∀ x, x ∈ l1 → association_id x ≠ association_id b).
Proof.
  cbv zeta. rewrite no_duplicates_survivors, yields_from_list.
  split; [done|]. split; [apply survivors_sublist|].
  split; [apply survivors_NoDup|]. split.
  - intros a Ha. apply survivors_cover; [done|]. apply not_elem_of_empty.
  - intros b Hb. by eapply survivors_first.
Qed.

(** Filtering twice is filtering once. *)
Theorem no_duplicates_idempotent (l : list association) :
  _unit_associations_no_duplicates
    (_unit_associations_no_duplicates (from_list l))
  = _unit_associations_no_duplicates (from_list l).
Proof.
  rewrite !no_duplicates_survivors. f_equal.
  apply survivors_fixed; [|apply survivors_NoDup].
  intros a _. apply not_elem_of_empty.
Qed.

(** A stream without two records of the same joined key passes unchanged. *)
Theorem no_duplicates_keeps_distinct_stream (l : list association) :
  NoDup (association_id <$> l) →
  _unit_associations_no_duplicates (from_list l) = from_list l.
Proof.
  intros Hnodup. rewrite no_duplicates_survivors. f_equal.
  apply survivors_fixed; [|done]. intros a _. apply not_elem_of_empty.
Qed.

Lemma no_duplicates_keeps_distinct_stream_witness :
  _unit_associations_no_duplicates
    (from_list [linked "rpm" "u1" 1; linked "srpm" "u1" 2])
  = from_list [linked "rpm" "u1" 1; linked "srpm" "u1" 2].
Proof.
  apply (no_duplicates_keeps_distinct_stream [linked "rpm" "u1" 1; linked "srpm" "u1" 2]).
  vm_compute. repeat constructor; intros H; inversion H as [|? ? ? H']; inversion H'.
Defined.

(** The filter makes no storage call of its own and neither hides nor adds
    an exception: the stream it returns makes the storage calls of the
    stream it was given and ends as that stream ends. *)
Theorem no_duplicates_transparent (iterator : generator association) :
  raised (_unit_associations_no_duplicates iterator) = raised iterator ∧
  accesses (_unit_associations_no_duplicates iterator) = accesses iterator.
Proof.
  unfold _unit_associations_no_duplicates, for_each.
  destruct (no_duplicates_events_raised ∅ (events iterator) (raised iterator))
    as [Hr Hacc].
  split; [exact Hr|]. rewrite Hacc. by destruct iterator.
Qed.

(** Where no type id holds a ['+'], the joined key tells the type and the
    unit apart. *)
Lemma join_plus_free (t1 t2 u1 u2 : string) :
  has_plus t1 = false → has_plus t2 = false →
  t1 +:+ "+" +:+ u1 = t2 +:+ "+" +:+ u2 → t1 = t2 ∧ u1 = u2.
Proof.
  revert t2. induction t1 as [|c1 t1 IH]; intros [|c2 t2] H1 H2 Heq;
    simpl in H1, H2; unfold String.append in Heq; fold String.append in Heq.
  - by injection Heq as ->.
  - injection Heq as <- _. by rewrite decide_True in H2.
  - injection Heq as -> _. by rewrite decide_True in H1.
  - injection Heq as -> Heq.
    destruct (decide (String c2 "" = "+")); [done|].
    destruct (IH t2 H1 H2 Heq) as [-> ->]. done.
Qed.

(** On a stream sorted by [created] in which no type id holds a ['+'], the
    filter keeps exactly the earliest association of every (type, unit)
    pair: the output keeps the order of the input, holds no two records of
    the same pair, and holds for every input record a record of its pair
    that was created no later. *)
Theorem no_duplicates_earliest_per_type_and_unit (l : list association) :
  (∀ a, a ∈ l → has_plus (unit_type_id a) = false) →
  StronglySorted (λ x y, created x ≤ created y) l →
  let out := yields (_unit_associations_no_duplicates (from_list l)) in
  (out `sublist_of` l) ∧
  NoDup (identity_key <$> out) ∧
  ∀ a, a ∈ l →
    ∃ b, b ∈ out ∧ identity_key b = identity_key a ∧ created b ≤ created a.
Proof.
  intros Hplus Hsorted. apply no_duplicates_keeps_earliest; [|done].
  intros x y Hx Hy Hid. unfold association_id in Hid.
  destruct (join_plus_free _ _ _ _ (Hplus x Hx) (Hplus y Hy) Hid) as [Ht Hu].
  unfold identity_key. by rewrite Ht, Hu.
Qed.

Lemma no_duplicates_earliest_per_type_and_unit_witness :
  let l := [linked "rpm" "u1" 1; linked "rpm" "u1" 2; linked "srpm" "u1" 3] in
  let out := yields (_unit_associations_no_duplicates (from_list l)) in
  (out `sublist_of` l) ∧
  NoDup (identity_key <$> out) ∧
  ∀ a, a ∈ l →
    ∃ b, b ∈ out ∧ identity_key b = identity_key a ∧ created b ≤ created a.
Proof.
  apply (no_duplicates_earliest_per_type_and_unit
           [linked "rpm" "u1" 1; linked "rpm" "u1" 2; linked "srpm" "u1" 3]).
  - intros a Ha. repeat (apply elem_of_cons in Ha as [->|Ha]; [reflexivity|]).
    by apply elem_of_nil in Ha.
  - repeat constructor; simpl; lia.
Defined.

(** ** The merge, when every unit is known *)

(** When the id of every unit of the stream is in the map, the merge ends
    without an error and yields one record per unit, in the order of the
    units: the association stored for the id of the unit, with the unit as
    its [metadata] and its other attributes as stored. *)
Theorem merged_units_all_known (d : list (string * association))
    (units : list unit_doc) :
  (∀ u, u ∈ units → is_Some (odict_get (_id u) d)) →
  let g := _merged_units d (from_list (Unit <$> units)) in
  raised g = None ∧
  Forall2 (λ u a, metadata a = Some (Unit u) ∧
                  ∃ a0, odict_get (_id u) d = Some a0 ∧
                        a = set_metadata a0 (Unit u))
    units (yields g).
Proof.
  intros Hknown. cbv zeta. unfold _merged_units.
  destruct (merged_loop_present d d units []) as (d' & _ & Heq); [done|done|].
  rewrite app_nil_r in Heq. rewrite Heq, for_each_nil.
  cbn [events raised]. split; [done|].
  rewrite yields_Generator_app, app_nil_r.
  clear -Hknown. induction units as [|u units IH]; [constructor|].
  destruct (Hknown u) as [a0 Ha0]; [left|].
  cbn [omap list_omap]. unfold attach at 1. rewrite Ha0. simpl.
  constructor; [eauto|]. apply IH. intros v Hv. apply Hknown. by right.
Qed.

Lemma merged_units_all_known_witness :
  let g := _merged_units only_u2 (from_list (Unit <$> [u2; u2])) in
  raised g = None ∧
  Forall2 (λ u a, metadata a = Some (Unit u) ∧
                  ∃ a0, odict_get (_id u) only_u2 = Some a0 ∧
                        a = set_metadata a0 (Unit u))
    [u2; u2] (yields g).
Proof.
  apply (merged_units_all_known only_u2 [u2; u2]).
  intros u Hu. exists (linked "rpm" "u2" 1).
  repeat (apply elem_of_cons in Hu as [->|Hu]; [reflexivity|]).
  by apply elem_of_nil in Hu.
Defined.

(** ** The association-order pass: its dictionary and its upstream *)

Lemma units_by_id_app (d : gmap string pyobj) (l1 l2 : list unit_doc) :
  units_by_id d (l1 ++ l2) = units_by_id (units_by_id d l1) l2.
Proof. unfold units_by_id. apply foldl_app. Qed.

Lemma units_by_id_other (d : gmap string pyobj) (l : list unit_doc) (k : string) :
  (∀ v, v ∈ l → _id v ≠ k) → units_by_id d l !! k = d !! k.
Proof.
  revert d. induction l as [|v l IH]; intros d Hl; [done|].
  simpl. rewrite IH by (intros w Hw; apply Hl; by right).
  apply lookup_insert_ne. apply Hl. left.
Qed.

(** Of several units with one id in the stream, the pass yields the last:
    a later document replaces the earlier one in the dictionary. *)
Theorem association_ordered_units_later_unit_wins (l1 l2 : list unit_doc)
    (u : unit_doc) :
  (∀ v, v ∈ l2 → _id v ≠ _id u) →
  _association_ordered_units [_id u] (from_list (Unit <$> (l1 ++ u :: l2)))
  = from_list [Unit u].
Proof.
  intros Hlater. unfold _association_ordered_units.
  change (raised (from_list (Unit <$> (l1 ++ u :: l2)))) with (@None exn).
  rewrite dict_by_id_units. cbv iota beta zeta.
  assert (units_by_id ∅ (l1 ++ u :: l2) !! _id u = Some (Unit u)) as Hlook.
  { rewrite units_by_id_app.
    change (units_by_id (units_by_id ∅ l1) (u :: l2))
      with (units_by_id (<[_id u := Unit u]> (units_by_id ∅ l1)) l2).
    rewrite units_by_id_other by done. apply lookup_insert_eq. }
  rewrite for_each_cons. unfold ordered_turn. rewrite Hlook. reflexivity.
Qed.

Lemma association_ordered_units_later_unit_wins_witness :
  _association_ordered_units [_id (mkUnit "u2" [("name", VStr "fish")])]
    (from_list (Unit <$> ([u2] ++ mkUnit "u2" [("name", VStr "fish")] :: [u1])))
  = from_list [Unit (mkUnit "u2" [("name", VStr "fish")])].
Proof.
  apply (association_ordered_units_later_unit_wins [u2] [u1]
           (mkUnit "u2" [("name", VStr "fish")])).
  intros v Hv. apply list_elem_of_singleton in Hv. subst v. discriminate.
Defined.

Lemma dict_by_id_upstream_error (evs : list (event pyobj)) (e : exn)
    (d : gmap string pyobj) :
  ∃ acc e', dict_by_id evs (Some e) d = (acc, inl e') ∧ (e' = e ∨ e' = TypeError).
Proof.
  revert d. induction evs as [|[o|c] evs IH]; intros d; simpl.
  - eauto.
  - destruct o as [u|c]; simpl; [apply IH|eauto].
  - destruct (IH d) as (acc & e' & -> & He'). eauto.
Qed.

Lemma yields_accesses_only {A} (acc : list access) (r : option exn) :
  yields (Generator (@Access A <$> acc) r) = [].
Proof. unfold yields. simpl. induction acc as [|c acc IH]; [done|]. exact IH. Qed.

(** The pass pulls its whole upstream before it yields: when the upstream
    ends with an exception, the pass yields nothing and raises, that
    exception or the [TypeError] of an element it could not subscript. *)
Theorem association_ordered_units_upstream_error (ids : list string)
    (associated_units : generator pyobj) (e : exn) :
  raised associated_units = Some e →
  let g := _association_ordered_units ids associated_units in
  yields g = [] ∧ (raised g = Some e ∨ raised g = Some TypeError).
Proof.
  intros He. cbv zeta. unfold _association_ordered_units. rewrite He.
  destruct (dict_by_id_upstream_error (events associated_units) e ∅)
    as (acc & e' & -> & He').
  split; [apply yields_accesses_only|].
  destruct He' as [-> | ->]; [by left|by right].
Qed.

Lemma association_ordered_units_upstream_error_witness :
  let g := _association_ordered_units ["u2"]
             (Generator [Yield (Unit u2)] (Some (KeyError "u9"))) in
  yields g = [] ∧ (raised g = Some (KeyError "u9") ∨ raised g = Some TypeError).
Proof.
  apply (association_ordered_units_upstream_error ["u2"]
           (Generator [Yield (Unit u2)] (Some (KeyError "u9"))) (KeyError "u9")).
  reflexivity.
Defined.

(** ** The cursor builders *)

Lemma unit_associations_cursor_spec (repo_id : string)
    (criteria : UnitAssociationCriteria) :
  cur_spec (_unit_associations_cursor repo_id criteria).1.1
  = match type_ids criteria with
    | [] => <[ "repo_id" := Is (VStr repo_id) ]> (association_filters criteria)
    | _ :: _ =>
        <[ "unit_type_id" := AmongIn (VStr <$> type_ids criteria) ]>
          (<[ "repo_id" := Is (VStr repo_id) ]> (association_filters criteria))
    end ∧
  cur_fields (_unit_associations_cursor repo_id criteria).1.1
  = association_fields criteria.
Proof.
  unfold _unit_associations_cursor.
  destruct (association_sort criteria) as [[|x l]|]; simpl;
    repeat case_decide; done.
Qed.

(** The query of the association cursor is scoped to the repository of
    the call whatever the caller's filters say: the condition on [repo_id]
    is the repository, the condition on [unit_type_id] is membership in
    [type_ids] when types are given, and every other condition is the
    caller's.  The projection is the caller's. *)
Theorem unit_associations_cursor_query (repo_id : string)
    (criteria : UnitAssociationCriteria) (k : string) :
  let cursor := (_unit_associations_cursor repo_id criteria).1.1 in
  cur_collection cursor = RepoContentUnit ∧
  cur_fields cursor = association_fields criteria ∧
  cur_spec cursor !! k
  = if decide (k = "unit_type_id")
    then match type_ids criteria with
         | [] => association_filters criteria !! k
         | _ :: _ => Some (AmongIn (VStr <$> type_ids criteria))
         end
    else if decide (k = "repo_id") then Some (Is (VStr repo_id))
    else association_filters criteria !! k.
Proof.
  cbv zeta. destruct (unit_associations_cursor_spec repo_id criteria) as [-> ->].
  split; [apply unit_associations_cursor_collection|]. split; [done|].
  destruct (type_ids criteria) as [|t ts];
    repeat case_decide; subst; simplify_map_eq; done.
Qed.

(** Building the cursor a second time from the criteria the first call
    left changes nothing more: the same cursor, the same storage calls,
    the same criteria.  The caller's sort list grows at most once. *)
Theorem unit_associations_cursor_settles (repo_id : string)
    (criteria : UnitAssociationCriteria) :
  _unit_associations_cursor repo_id
    (_unit_associations_cursor repo_id criteria).1.2
  = _unit_associations_cursor repo_id criteria.
Proof.
  unfold _unit_associations_cursor.
  destruct criteria as [t af afs [[|x l]|] uf ufs us lim sk rd]; simpl;
    repeat (case_decide; simpl); try done; exfalso; set_solver.
Qed.

(** The query of a unit cursor: it reads the collection of its type, the
    condition on [_id] is membership in the requested ids whatever the
    caller's unit filters say, every other condition is the caller's, and
    the sort is the caller's unit sort when that is not empty and otherwise
    the unit key of the type, each field ascending. *)
Theorem associated_units_cursor_query (db : Collaborators) (unit_type_id : string)
    (criteria : UnitAssociationCriteria) (ids : list string) (k : string) :
  let cursor := (_associated_units_by_type_cursor db unit_type_id criteria ids).1 in
  cur_collection cursor = type_units_collection unit_type_id ∧
  cur_fields cursor = unit_fields criteria ∧
  cur_spec cursor !! k
  = (if decide (k = "_id") then Some (AmongIn (VStr <$> ids))
     else unit_filters criteria !! k) ∧
  ((default [] (unit_sort criteria) ≠ [] ∧
    cur_sort cursor = default [] (unit_sort criteria)) ∨
   (default [] (unit_sort criteria) = [] ∧
    (cur_sort cursor).*1 = type_units_unit_key db unit_type_id ∧
    Forall (λ p, p.2 = SORT_ASCENDING) (cur_sort cursor))).
Proof.
  cbv zeta. unfold _associated_units_by_type_cursor. simpl.
  split; [done|]. split; [done|]. split.
  { case_decide; subst; simplify_map_eq; done. }
  assert (∀ key : list string,
            ((λ u, (u, SORT_ASCENDING)) <$> key).*1 = key ∧
            Forall (λ p : string * Z, p.2 = SORT_ASCENDING)
              ((λ u, (u, SORT_ASCENDING)) <$> key)) as Hkey.
  { intros key. induction key as [|f key [IH1 IH2]]; [by split|].
    split; [simpl; by f_equal|by constructor]. }
  destruct (unit_sort criteria) as [[|x l]|]; simpl.
  - right. split; [done|]. apply Hkey.
  - by left.
  - right. split; [done|]. apply Hkey.
Qed.

(** ** The types of a call *)

(** The types a call works through are in ascending order, whether the
    caller gave them or they were read from the associations, and each
    occurs as often as it was given or read; giving types costs no storage
    call. *)
Theorem unit_type_ids_sorted (db : Collaborators) (repo_id : string)
    (criteria : UnitAssociationCriteria) :
  let resolved := unit_type_ids_of db repo_id criteria in
  Sorted (λ a b, String.leb a b = true) resolved.1 ∧
  resolved.1 ≡ₚ
    match type_ids criteria with
    | [] => unit_type_id <$>
            iterate_associations db
              (mkCursor RepoContentUnit {[ "repo_id" := Is (VStr repo_id) ]}
                 (Some ["unit_type_id"]) [])
    | _ :: _ => type_ids criteria
    end ∧
  (type_ids criteria = [] ∨ resolved.2 = []).
Proof.
  cbv zeta. unfold unit_type_ids_of.
  destruct (type_ids criteria) as [|t ts] eqn:Ht; simpl.
  - split; [apply sorted_ascending|]. split; [apply sorted_ascending|by left].
  - split; [apply sorted_ascending|]. split; [apply sorted_ascending|by right].
Qed.

(** ** The storage calls of a whole call *)

Section StorageCalls.

Context (db : Collaborators).
Implicit Types (criteria : UnitAssociationCriteria) (repo_id : string) (a : access).

Lemma accesses_app {A} (evs1 evs2 : list (event A)) r1 r2 r :
  accesses (Generator (evs1 ++ evs2) r)
  = accesses (Generator evs1 r1) ++ accesses (Generator evs2 r2).
Proof. unfold accesses. simpl. apply omap_app. Qed.

Lemma accesses_of_accesses {A} (acc : list access) r :
  accesses (Generator (@Access A <$> acc) r) = acc.
Proof.
  unfold accesses. simpl. induction acc as [|c acc IH]; [done|].
  simpl. by f_equal.
Qed.

Lemma for_each_accesses {A B S} (body : S → A → turn B S) s
    (evs : list (event A)) up a :
  a ∈ accesses (for_each_events body s evs up) → a ∈ accesses (Generator evs up).
Proof.
  revert s. induction evs as [|[x|c] evs IH]; intros s; simpl.
  - done.
  - destruct (body s x) as [[b|] s'| |e]; simpl.
    + apply IH.
    + apply IH.
    + by intros ?%elem_of_nil.
    + by intros ?%elem_of_nil.
  - unfold accesses. simpl. intros [->|Ha]%elem_of_cons; [left|right].
    by apply (IH s).
Qed.

Lemma dict_by_id_accesses (evs : list (event pyobj)) up d a :
  a ∈ (dict_by_id evs up d).1 → a ∈ accesses (Generator evs up).
Proof.
  revert d. induction evs as [|[o|c] evs IH]; intros d; simpl.
  - by intros ?%elem_of_nil.
  - destruct (subscript_id o) as [e|k]; simpl; [by intros ?%elem_of_nil|apply IH].
  - specialize (IH d). destruct (dict_by_id evs up d) as [acc r]. simpl in *.
    unfold accesses. simpl. intros [->|Ha]%elem_of_cons; [left|right]. by apply IH.
Qed.

Lemma with_skip_and_limit_accesses {A} (g : generator A) (skip limit : pyarg) a :
  a ∈ accesses (_with_skip_and_limit g skip limit) → a ∈ accesses g.
Proof.
  unfold _with_skip_and_limit.
  destruct (valid_arg skip); simpl; [|by intros ?%elem_of_nil].
  destruct (valid_arg limit); simpl; [|by intros ?%elem_of_nil].
  intros Ha. apply for_each_accesses in Ha. by destruct g.
Qed.

Lemma association_ordered_units_accesses (ids : list string) (g : generator pyobj) a :
  a ∈ accesses (_association_ordered_units ids g) → a ∈ accesses g.
Proof.
  unfold _association_ordered_units.
  pose proof (dict_by_id_accesses (events g) (raised g) ∅ a) as Hacc.
  destruct (dict_by_id (events g) (raised g) ∅) as [acc [e|d]]; simpl in Hacc.
  - rewrite accesses_of_accesses. intros Ha. destruct g. by apply Hacc.
  - rewrite (accesses_app _ _ None None), accesses_of_accesses.
    intros [Ha|Ha]%elem_of_app; [destruct g; by apply Hacc|].
    apply for_each_accesses in Ha.
    change (a ∈ accesses (from_list ids)) in Ha.
    rewrite accesses_from_list in Ha. by apply elem_of_nil in Ha.
Qed.

Lemma merged_units_accesses (d : list (string * association)) (g : generator pyobj) a :
  a ∈ accesses (_merged_units d g) → a ∈ accesses g.
Proof.
  unfold _merged_units, for_each. intros Ha.
  apply for_each_accesses in Ha. by destruct g.
Qed.

Lemma chained_units_accesses (unit_type_ids : list string) criteria
    (ids : list string) a :
  a ∈ accesses (chained_units db unit_type_ids criteria ids) →
  ∃ t, t ∈ unit_type_ids ∧ access_collection a = type_units_collection t ∧
       ∀ f, a ≠ Distinct RepoContentUnit f.
Proof.
  unfold chained_units, itertools_chain, unit_cursors, accesses.
  cbn [events raised]. rewrite app_nil_r.
  induction unit_type_ids as [|t tys IH]; [by intros ?%elem_of_nil|].
  rewrite bind_cons, omap_app. intros [Ha|Ha]%elem_of_app.
  - exists t. split; [left|].
    simpl in Ha. repeat (apply elem_of_cons in Ha as [->|Ha]; [by split|]).
    by apply elem_of_nil in Ha.
  - destruct (IH Ha) as (t' & Ht' & Hrest). exists t'. split; [by right|done].
Qed.

(** The storage calls of the unit stream a call builds are calls on the
    unit collections of the types of the call. *)
Lemma units_generator_accesses (unit_type_ids : list string) criteria
    (by_id : list (string * association)) (reorder : bool) a :
  let chained := chained_units db unit_type_ids criteria (keys by_id) in
  let paged := _with_skip_and_limit chained (skip criteria) (limit criteria) in
  let ordered := if reorder then _association_ordered_units (keys by_id) paged
                 else paged in
  a ∈ accesses (_merged_units by_id ordered) →
  ∃ t, t ∈ unit_type_ids ∧ access_collection a = type_units_collection t ∧
       ∀ f, a ≠ Distinct RepoContentUnit f.
Proof.
  cbv zeta. intros Ha. apply merged_units_accesses in Ha.
  destruct reorder; [apply association_ordered_units_accesses in Ha|];
    apply with_skip_and_limit_accesses in Ha;
    by apply chained_units_accesses in Ha.
Qed.

End StorageCalls.

(** A call for a generator reads the whole association stream before it
    returns and touches no unit collection: its storage calls are the
    find, sort and iteration of the association cursor and, when no types
    are given, the find, distinct and iteration of type discovery.  The
    unit cursors are built only when the generator is pulled. *)
Theorem get_units_as_generator_storage_calls (db : Collaborators)
    (repo_id : string) (criteria : UnitAssociationCriteria) :
  accessed (get_units db repo_id (Some criteria) true)
  = [Find RepoContentUnit;
     Sort RepoContentUnit (cur_sort (_unit_associations_cursor repo_id criteria).1.1);
     Iterate RepoContentUnit]
    ++ match type_ids criteria with
       | [] => [Find RepoContentUnit; Distinct RepoContentUnit "unit_type_id";
                Iterate RepoContentUnit]
       | _ :: _ => []
       end.
Proof.
  unfold get_units. simpl default.
  pose proof (unit_associations_cursor_accesses repo_id criteria) as Hacc.
  pose proof (unit_associations_cursor_collection repo_id criteria) as Hcoll.
  destruct (unit_associations_cursor_criteria repo_id criteria) as [Hcrit _].
  destruct (_unit_associations_cursor repo_id criteria) as [[cursor criteria'] acc].
  simpl in Hacc, Hcoll, Hcrit. cbv zeta.
  destruct (association_stream db cursor (remove_duplicates criteria') Hcoll)
    as [Hr Hit].
  cbv zeta in Hr, Hit. rewrite Hr, Hit.
  pose proof (unit_type_ids_of_accesses db repo_id criteria') as Htys.
  destruct (unit_type_ids_of db repo_id criteria') as [tys acc_types].
  simpl in Htys.
  assert (type_ids criteria' = type_ids criteria) as Ht by (by rewrite Hcrit).
  rewrite Ht in Htys. subst acc acc_types. simpl. done.
Qed.

(** A call for the units of one type touches, besides the association
    collection, only the unit collection of that type, and never runs the
    distinct query of type discovery; this holds for the storage calls
    made before the call returns and for those made when a returned
    generator is pulled. *)
Theorem get_units_by_type_storage_calls (db : Collaborators)
    (repo_id type_id : string) (criteria : option UnitAssociationCriteria)
    (as_generator : bool) :
  let r := get_units_by_type db repo_id type_id criteria as_generator in
  Forall (λ a, (access_collection a = RepoContentUnit ∨
                access_collection a = type_units_collection type_id) ∧
               ∀ f, a ≠ Distinct RepoContentUnit f)
    (accessed r ++ match returned r with
                   | AsGenerator g => accesses g
                   | _ => []
                   end).
Proof.
  cbv zeta. unfold get_units_by_type.
  set (given := set_type_ids (default (new_criteria db) criteria) [type_id]).
  unfold get_units. simpl default.
  pose proof (unit_associations_cursor_accesses repo_id given) as Hacc.
  pose proof (unit_associations_cursor_collection repo_id given) as Hcoll.
  destruct (unit_associations_cursor_criteria repo_id given) as [Hcrit _].
  destruct (_unit_associations_cursor repo_id given) as [[cursor criteria'] acc].
  simpl in Hacc, Hcoll, Hcrit. cbv zeta.
  destruct (association_stream db cursor (remove_duplicates criteria') Hcoll)
    as [Hr Hit].
  cbv zeta in Hr, Hit. rewrite Hr, Hit.
  assert (unit_type_ids_of db repo_id criteria' = ([type_id], [])) as ->.
  { unfold unit_type_ids_of. rewrite Hcrit. reflexivity. }
  subst acc.
  assert (∀ a, a ∈ [Find RepoContentUnit; Sort RepoContentUnit (cur_sort cursor);
                    Iterate RepoContentUnit] →
               (access_collection a = RepoContentUnit ∨
                access_collection a = type_units_collection type_id) ∧
               ∀ f, a ≠ Distinct RepoContentUnit f) as Hcall.
  { intros a Ha.
    repeat (apply elem_of_cons in Ha as [->|Ha]; [split; [by left|done]|]).
    by apply elem_of_nil in Ha. }
  assert (∀ (reorder : bool) a,
            a ∈ accesses
                  (_merged_units
                     (OrderedDict
                        ((λ u, (unit_id u, u)) <$>
                         yields (if remove_duplicates criteria'
                                 then _unit_associations_no_duplicates
                                        (association_documents db cursor)
                                 else association_documents db cursor)))
                     (if reorder
                      then _association_ordered_units
                             (keys (OrderedDict
                                ((λ u, (unit_id u, u)) <$>
                                 yields (if remove_duplicates criteria'
                                         then _unit_associations_no_duplicates
                                                (association_documents db cursor)
                                         else association_documents db cursor))))
                             (_with_skip_and_limit
                                (chained_units db [type_id] criteria'
                                   (keys (OrderedDict
                                      ((λ u, (unit_id u, u)) <$>
                                       yields (if remove_duplicates criteria'
                                               then _unit_associations_no_duplicates
                                                      (association_documents db cursor)
                                               else association_documents db cursor)))))
                                (skip criteria') (limit criteria'))
                      else _with_skip_and_limit
                             (chained_units db [type_id] criteria'
                                (keys (OrderedDict
                                   ((λ u, (unit_id u, u)) <$>
                                    yields (if remove_duplicates criteria'
                                            then _unit_associations_no_duplicates
                                                   (association_documents db cursor)
                                            else association_documents db cursor)))))
                             (skip criteria') (limit criteria'))) →
            (access_collection a = RepoContentUnit ∨
             access_collection a = type_units_collection type_id) ∧
            ∀ f, a ≠ Distinct RepoContentUnit f) as Hpull.
  { intros reorder a Ha.
    apply (units_generator_accesses db [type_id] criteria' _ reorder) in Ha
      as (t & Ht & Hcollection & Hdistinct).
    apply list_elem_of_singleton in Ht. subst t. split; [by right|done]. }
  apply Forall_forall. intros a Ha.
  destruct (association_sort criteria'); destruct as_generator;
    cbn [accessed returned] in Ha.
  all: try match type of Ha with
           | context [raised ?g] => destruct (raised g)
           end.
  all: rewrite ?elem_of_app in Ha.
  all: repeat match type of Ha with _ ∨ _ => destruct Ha as [Ha|Ha] end.
  all: first [ by apply elem_of_nil in Ha
             | by apply (Hpull true)
             | by apply (Hpull false)
             | (apply Hcall; revert Ha; clear; set_solver) ].
Qed.

(** On a repository without associations a call with no types given and a
    well-formed skip and limit returns the empty list, or a generator that
    yields nothing and makes no storage call, whatever the sorts, filters
    and duplicate flag of the criteria. *)
Theorem get_units_without_associations (db : Collaborators) (repo_id : string)
    (criteria : UnitAssociationCriteria) :
  (∀ c, iterate_associations db c = []) →
  type_ids criteria = [] →
  valid_arg (skip criteria) = true →
  valid_arg (limit criteria) = true →
  returned (get_units db repo_id (Some criteria) false) = AsList [] ∧
  returned (get_units db repo_id (Some criteria) true)
  = AsGenerator (Generator [] None).
Proof.
  intros Hempty Htypes Hskip Hlimit. unfold get_units. simpl default.
  destruct (unit_associations_cursor_criteria repo_id criteria) as [Hcrit _].
  destruct (_unit_associations_cursor repo_id criteria) as [[cursor criteria'] acc].
  simpl in Hcrit. cbv zeta.
  assert (skip criteria' = skip criteria ∧ limit criteria' = limit criteria
          ∧ type_ids criteria' = type_ids criteria) as (Hs & Hl & Ht).
  { rewrite Hcrit. done. }
  unfold unit_type_ids_of, _unit_type_ids_for_repo, association_documents.
  rewrite Ht, Htypes, !Hempty.
  unfold _with_skip_and_limit. rewrite Hs, Hl, Hskip, Hlimit.
  destruct (remove_duplicates criteria'), (association_sort criteria'); done.
Qed.

Lemma get_units_without_associations_witness :
  let db := Memory.collaborators (Memory.mkStore [] (λ _, []) (λ _, [])) plain in
  returned (get_units db "repo" (Some by_owner) false) = AsList [] ∧
  returned (get_units db "repo" (Some by_owner) true)
  = AsGenerator (Generator [] None).
Proof.
  apply (get_units_without_associations
           (Memory.collaborators (Memory.mkStore [] (λ _, []) (λ _, [])) plain)
           "repo" by_owner); reflexivity.
Defined.

(** ** The legacy id query *)

Section UnitIdsProperties.

Context (distinct : Cursor → string → list string).
Implicit Types (unit_ids : gmap string (list string)) (t : string).

Lemma setdefault_append_all (type_id : string) (ids : list string) unit_ids :
  foldl (λ unit_ids unit_id, setdefault_append type_id unit_id unit_ids) unit_ids ids
  = match ids with
    | [] => unit_ids
    | _ :: _ => <[ type_id := default [] (unit_ids !! type_id) ++ ids ]> unit_ids
    end.
Proof.
  revert unit_ids. induction ids as [|x ids IH]; intros unit_ids; [done|].
  simpl. rewrite IH. unfold setdefault_append.
  destruct ids as [|y ids]; [done|].
  rewrite lookup_insert_eq, insert_insert_eq. simpl. by rewrite <- app_assoc.
Qed.

Lemma get_unit_ids_loop (repo_id : string) (types : list string) unit_ids acc t :
  (foldl
     (λ '(unit_ids, acc) type_id,
        (foldl (λ unit_ids unit_id, setdefault_append type_id unit_id unit_ids)
           unit_ids (distinct (type_in_repo repo_id type_id) "unit_id"),
         acc ++ [Find RepoContentUnit; Distinct RepoContentUnit "unit_id"]))
     (unit_ids, acc) types).1 !! t
  = match gathered distinct repo_id types t with
    | [] => unit_ids !! t
    | _ :: _ => Some (default [] (unit_ids !! t) ++ gathered distinct repo_id types t)
    end.
Proof.
  revert unit_ids acc. induction types as [|t' types IH]; intros unit_ids acc.
  { done. }
  simpl foldl. rewrite IH. rewrite setdefault_append_all.
  unfold gathered. rewrite bind_cons. fold (gathered distinct repo_id types t).
  destruct (distinct (type_in_repo repo_id t') "unit_id") as [|x ids] eqn:Hids.
  - by case_decide.
  - case_decide as Ht.
    + subst t'. rewrite lookup_insert_eq. simpl.
      destruct (gathered distinct repo_id types t); simpl.
      * by rewrite app_nil_r.
      * by rewrite <- app_assoc.
    + rewrite lookup_insert_ne by done. done.
Qed.

Lemma get_unit_ids_accesses_loop (repo_id : string) (types : list string)
    unit_ids acc :
  (foldl
     (λ '(unit_ids, acc) type_id,
        (foldl (λ unit_ids unit_id, setdefault_append type_id unit_id unit_ids)
           unit_ids (distinct (type_in_repo repo_id type_id) "unit_id"),
         acc ++ [Find RepoContentUnit; Distinct RepoContentUnit "unit_id"]))
     (unit_ids, acc) types).2
  = acc ++ (types ≫= λ _, [Find RepoContentUnit; Distinct RepoContentUnit "unit_id"]).
Proof.
  revert unit_ids acc. induction types as [|t' types IH]; intros unit_ids acc.
  { simpl. by rewrite app_nil_r. }
  simpl foldl. rewrite IH. rewrite bind_cons. by rewrite <- app_assoc.
Qed.

End UnitIdsProperties.

Lemma get_unit_ids_unfold (distinct : Cursor → string → list string)
    (repo_id : string) (unit_type_id : option string) (t : string) :
  (get_unit_ids distinct repo_id unit_type_id).1 !! t
  = nonempty (gathered distinct repo_id
                (queried_types distinct repo_id unit_type_id) t) ∧
  (get_unit_ids distinct repo_id unit_type_id).2
  = match unit_type_id with
    | None => [Find RepoContentUnit; Distinct RepoContentUnit "unit_type_id"]
    | Some _ => []
    end
    ++ (queried_types distinct repo_id unit_type_id
          ≫= λ _, [Find RepoContentUnit; Distinct RepoContentUnit "unit_id"]).
Proof.
  unfold get_unit_ids, queried_types.
  destruct unit_type_id as [t0|];
    rewrite get_unit_ids_loop, get_unit_ids_accesses_loop, lookup_empty;
    (split; [|done]);
    by destruct (gathered _ _ _ _).
Qed.

(** What the legacy query returns for a type: the distinct unit ids of the
    type, once for each time the type comes up among the queried types,
    and no entry at all when that list is empty. *)
Theorem get_unit_ids_lookup (distinct : Cursor → string → list string)
    (repo_id : string) (unit_type_id : option string) (t : string) :
  (get_unit_ids distinct repo_id unit_type_id).1 !! t
  = nonempty (gathered distinct repo_id
                (queried_types distinct repo_id unit_type_id) t).
Proof. apply get_unit_ids_unfold. Qed.

(** The result of the legacy query never maps a type to an empty list: a
    type without unit ids is missing from the result. *)
Theorem get_unit_ids_no_empty_entry (distinct : Cursor → string → list string)
    (repo_id : string) (unit_type_id : option string) (t : string) :
  (get_unit_ids distinct repo_id unit_type_id).1 !! t ≠ Some [].
Proof.
  destruct (get_unit_ids_unfold distinct repo_id unit_type_id t) as [-> _].
  by destruct (gathered _ _ _ _).
Qed.

(** Asked for one type, the legacy query returns the distinct unit ids of
    that type under that type, or the empty dictionary when there are
    none, after one find and one distinct on the association collection. *)
Theorem get_unit_ids_of_one_type (distinct : Cursor → string → list string)
    (repo_id t : string) :
  get_unit_ids distinct repo_id (Some t)
  = (match distinct (type_in_repo repo_id t) "unit_id" with
     | [] => ∅
     | ids => {[ t := ids ]}
     end,
     [Find RepoContentUnit; Distinct RepoContentUnit "unit_id"]).
Proof.
  unfold get_unit_ids. simpl. rewrite setdefault_append_all.
  destruct (distinct (type_in_repo repo_id t) "unit_id") as [|x ids]; [done|].
  rewrite lookup_empty. simpl. by rewrite insert_empty.
Qed.

Lemma gathered_once (distinct : Cursor → string → list string)
    (repo_id : string) (types : list string) (t : string) :
  NoDup types →
  gathered distinct repo_id types t
  = if decide (t ∈ types) then distinct (type_in_repo repo_id t) "unit_id" else [].
Proof.
  unfold gathered. induction types as [|t' types IH]; intros Hnodup.
  { rewrite decide_False; [done|]. by intros ?%elem_of_nil. }
  apply NoDup_cons in Hnodup as [Hnotin Hnodup].
  rewrite bind_cons, IH by done. destruct (decide (t' = t)) as [->|Hne].
  - rewrite (decide_False (P := t ∈ types)) by done.
    rewrite decide_True by left. by rewrite app_nil_r.
  - simpl. destruct (decide (t ∈ types)) as [Hin|Hout].
    + rewrite decide_True by (by right). done.
    + rewrite decide_False; [done|].
      intros [->|Hin]%elem_of_cons; done.
Qed.

(** When the storage layer reports each type once, the legacy query maps
    exactly the reported types that have unit ids, each to its distinct
    unit ids. *)
Theorem get_unit_ids_all_types (distinct : Cursor → string → list string)
    (repo_id : string) (t : string) (ids : list string) :
  NoDup (queried_types distinct repo_id None) →
  (get_unit_ids distinct repo_id None).1 !! t = Some ids ↔
  t ∈ queried_types distinct repo_id None ∧
  ids = distinct (type_in_repo repo_id t) "unit_id" ∧ ids ≠ [].
Proof.
  intros Hnodup.
  destruct (get_unit_ids_unfold distinct repo_id None t) as [-> _].
  rewrite gathered_once by done. case_decide as Hin.
  - destruct (distinct (type_in_repo repo_id t) "unit_id") as [|x l]; simpl.
    + split; [done|]. by intros (_ & -> & ?).
    + split; [intros [= <-]; done|]. by intros (_ & -> & _).
  - simpl. split; [done|]. by intros (? & _).
Qed.

(** The legacy query reads the association collection only: a find and a
    distinct for the types when no type is given, then a find and a
    distinct for each queried type; no unit collection is touched. *)
Theorem get_unit_ids_storage_calls (distinct : Cursor → string → list string)
    (repo_id : string) (unit_type_id : option string) :
  let calls := (get_unit_ids distinct repo_id unit_type_id).2 in
  Forall (λ a, access_collection a = RepoContentUnit) calls ∧
  length calls
  = (match unit_type_id with None => 2 | Some _ => 0 end
     + 2 * length (queried_types distinct repo_id unit_type_id))%nat.
Proof.
  cbv zeta.
  destruct (get_unit_ids_unfold distinct repo_id unit_type_id "") as [_ ->].
  assert (∀ types : list string,
            Forall (λ a, access_collection a = RepoContentUnit)
              (types ≫= λ _, [Find RepoContentUnit; Distinct RepoContentUnit "unit_id"])
            ∧ length (types ≫= λ _ : string,
                        [Find RepoContentUnit; Distinct RepoContentUnit "unit_id"])
              = (2 * length types)%nat) as Hloop.
  { intros types. induction types as [|t types [IH1 IH2]]; [by split|].
    rewrite bind_cons. split; [by repeat constructor|].
    rewrite length_app, IH2. simpl. lia. }
  destruct (Hloop (queried_types distinct repo_id unit_type_id)) as [Hall Hlen].
  rewrite length_app, Hlen.
  split; [|by destruct unit_type_id].
  apply Forall_app. split; [|done]. destruct unit_type_id; by repeat constructor.
Qed.

Lemma get_unit_ids_all_types_witness :
  (get_unit_ids (memory_distinct zeta_alpha_alpha) "repo" None).1 !! "alpha"
  = Some ["u2"; "u3"] ↔
  "alpha" ∈ queried_types (memory_distinct zeta_alpha_alpha) "repo" None ∧
  ["u2"; "u3"]
  = memory_distinct zeta_alpha_alpha (type_in_repo "repo" "alpha") "unit_id" ∧
  ["u2"; "u3"] ≠ [].
Proof.
  apply (get_unit_ids_all_types (memory_distinct zeta_alpha_alpha) "repo" "alpha"
           ["u2"; "u3"]).
  apply (bool_decide_unpack _). vm_compute. exact I.
Defined.

(** The legacy query on the repository with one zeta and two alpha units. *)
Example get_unit_ids_zeta_alpha_alpha :
  (get_unit_ids (memory_distinct zeta_alpha_alpha) "repo" None).1
  = {[ "zeta" := ["u1"]; "alpha" := ["u2"; "u3"] ]}.
Proof. vm_compute. reflexivity. Qed.

(** ** Tasks *)

Section TaskProperties.

Context {R : Type}.
Implicit Types (self : Task.Task R) (call : Task.outcome R) (now : Z).

Lemma ready_not_complete (st : string) :
  st ∈ Task.task_ready_states → st ∉ Task.task_complete_states.
Proof.
  unfold Task.task_ready_states, Task.task_complete_states.
  intros Hready Hcomplete.
  repeat (apply elem_of_cons in Hready as [->|Hready];
          [repeat (apply elem_of_cons in Hcomplete as [Hc|Hcomplete];
                   [discriminate|]); by apply elem_of_nil in Hcomplete|]).
  by apply elem_of_nil in Hready.
Qed.

(** [run] refuses a task that is not waiting or reset: it raises
    [AssertionError] and leaves the task as it was, without calling the
    callable, logging, or telling the queue. *)
Theorem task_run_refused_unless_ready self call now_start now_finish :
  Task.state self ∉ Task.task_ready_states →
  Task.run self call now_start now_finish
  = (self, [], Some Task.FailedAssertion).
Proof.
  intros Hstate. unfold Task.run. by rewrite bool_decide_eq_false_2.
Qed.

(** When the callable returns or raises an ordinary exception, [run]
    returns normally with the task in a complete state, both times
    recorded and the queue told once; a returned value is recorded as the
    result with the state finished, an exception is recorded with its
    formatted traceback with the state error, and the error case logs one
    message. *)
Theorem task_run_records_outcome self call now_start now_finish :
  Task.state self ∈ Task.task_ready_states →
  call ≠ Task.Timeout → call ≠ Task.Cancel →
  let after := (Task.run self call now_start now_finish).1.1 in
  let effects := (Task.run self call now_start now_finish).1.2 in
  (Task.run self call now_start now_finish).2 = None ∧
  Task.state after ∈ Task.task_complete_states ∧
  Task.start_time after = Some now_start ∧
  Task.finish_time after = Some now_finish ∧
  filter (λ f, f = Task.QueueComplete) effects = [Task.QueueComplete] ∧
  match call with
  | Task.Returns r =>
      Task.state after = Task.task_finished ∧ Task.result after = Some r ∧
      Task.exception after = Task.exception self ∧ effects = [Task.QueueComplete]
  | Task.Fails e formatted =>
      Task.state after = Task.task_error ∧ Task.exception after = Some e ∧
      Task.traceback after = Some formatted ∧ Task.result after = Task.result self
  | _ => True
  end.
Proof.
  intros Hready Htimeout Hcancel. cbv zeta. unfold Task.run.
  rewrite bool_decide_eq_true_2 by done. simpl negb. cbv iota.
  destruct call as [r| | |e formatted]; [|done|done|].
  - simpl. split; [done|]. split; [|done].
    unfold Task.task_complete_states. left.
  - simpl. split; [done|]. split; [|done].
    unfold Task.task_complete_states. right; left.
Qed.

(** When the callable times out or is cancelled, [run] does not return:
    building the log message raises [TypeError].  The task is left timed
    out or canceled with its start time recorded, but its finish time is
    not recorded, nothing is logged and the queue is not told. *)
Theorem task_run_timeout_or_cancel_raises self call now_start now_finish :
  Task.state self ∈ Task.task_ready_states →
  call = Task.Timeout ∨ call = Task.Cancel →
  let after := (Task.run self call now_start now_finish).1.1 in
  (Task.run self call now_start now_finish).2 = Some Task.FormatTypeError ∧
  (Task.run self call now_start now_finish).1.2 = [] ∧
  Task.state after
  = match call with
    | Task.Timeout => Task.task_timed_out
    | _ => Task.task_canceled
    end ∧
  Task.state after ∈ Task.task_complete_states ∧
  Task.start_time after = Some now_start ∧
  Task.finish_time after = Task.finish_time self ∧
  Task.result after = Task.result self.
Proof.
  intros Hready Hcall. cbv zeta. unfold Task.run.
  rewrite bool_decide_eq_true_2 by done. simpl negb. cbv iota.
  destruct Hcall as [-> | ->]; simpl.
  - repeat split. unfold Task.task_complete_states. do 2 right; left.
  - repeat split. unfold Task.task_complete_states. do 3 right; left.
Qed.

Lemma task_run_ends_complete self call now_start now_finish :
  Task.state self ∈ Task.task_ready_states →
  Task.state (Task.run self call now_start now_finish).1.1
  ∈ Task.task_complete_states.
Proof.
  intros Hready. unfold Task.run.
  rewrite bool_decide_eq_true_2 by done. simpl negb. cbv iota.
  unfold Task.task_complete_states.
  destruct call; simpl.
  - left.
  - do 2 right; left.
  - do 3 right; left.
  - right; left.
Qed.

(** After any run of a ready task, also one that ended in the [TypeError]
    of the timeout and cancel handlers, [reset] makes the task ready
    again: a second [run] is not refused. *)
Theorem task_rerun_after_reset self call call' now1 now2 now3 now4 :
  Task.state self ∈ Task.task_ready_states →
  let after := (Task.run self call now1 now2).1.1 in
  Task.state (Task.reset after) = Task.task_reset ∧
  (Task.run (Task.reset after) call' now3 now4).2 ≠ Some Task.FailedAssertion.
Proof.
  intros Hready. cbv zeta.
  pose proof (task_run_ends_complete self call now1 now2 Hready) as Hcomplete.
  assert (Task.state (Task.reset (Task.run self call now1 now2).1.1)
          = Task.task_reset) as Hreset.
  { unfold Task.reset. by rewrite bool_decide_eq_true_2. }
  split; [done|]. unfold Task.run at 1. rewrite Hreset.
  rewrite bool_decide_eq_true_2 by (unfold Task.task_ready_states; right; left).
  simpl negb. cbv iota. by destruct call'.
Qed.


(** [reset] changes a task only when it is complete, and resetting twice is
    resetting once. *)
Theorem task_reset_idempotent self :
  Task.reset (Task.reset self) = Task.reset self ∧
  (Task.state self ∉ Task.task_complete_states → Task.reset self = self).
Proof.
  split.
  - unfold Task.reset.
    destruct (bool_decide (Task.state self ∈ Task.task_complete_states))
      eqn:Hcomplete; simpl.
    + reflexivity.
    + by rewrite Hcomplete.
  - intros Hstate. unfold Task.reset. by rewrite bool_decide_eq_false_2.
Qed.

End TaskProperties.

Lemma task_run_refused_unless_ready_witness :
  Task.run
    (Task.mkTask "t1" "sync" Task.task_running (Some 5) None None None None None)
    (Task.Returns 0) 7 9
  = (Task.mkTask "t1" "sync" Task.task_running (Some 5) None None None None None,
     [], Some Task.FailedAssertion).
Proof.
  apply (task_run_refused_unless_ready
           (Task.mkTask "t1" "sync" Task.task_running (Some 5) None None None None None)
           (Task.Returns 0) 7 9).
  simpl. intros Hin.
  repeat (apply elem_of_cons in Hin as [Hc|Hin]; [discriminate|]).
  by apply elem_of_nil in Hin.
Defined.

Lemma task_run_records_outcome_witness :
  let self : Task.Task Z := Task.init "t1" "sync" in
  let after := (Task.run self (Task.Returns 42) 7 9).1.1 in
  let effects := (Task.run self (Task.Returns 42) 7 9).1.2 in
  (Task.run self (Task.Returns 42) 7 9).2 = None ∧
  Task.state after ∈ Task.task_complete_states ∧
  Task.start_time after = Some 7 ∧
  Task.finish_time after = Some 9 ∧
  filter (λ f, f = Task.QueueComplete) effects = [Task.QueueComplete] ∧
  (Task.state after = Task.task_finished ∧ Task.result after = Some 42 ∧
   Task.exception after = Task.exception self ∧ effects = [Task.QueueComplete]).
Proof.
  apply (task_run_records_outcome (Task.init "t1" "sync") (Task.Returns 42) 7 9).
  - left.
  - discriminate.
  - discriminate.
Defined.

Lemma task_run_timeout_or_cancel_raises_witness :
  let self : Task.Task Z := Task.init "t1" "sync" in
  let after := (Task.run self Task.Timeout 7 9).1.1 in
  (Task.run self Task.Timeout 7 9).2 = Some Task.FormatTypeError ∧
  (Task.run self Task.Timeout 7 9).1.2 = [] ∧
  Task.state after = Task.task_timed_out ∧
  Task.state after ∈ Task.task_complete_states ∧
  Task.start_time after = Some 7 ∧
  Task.finish_time after = Task.finish_time self ∧
  Task.result after = Task.result self.
Proof.
  apply (task_run_timeout_or_cancel_raises (Task.init "t1" "sync") Task.Timeout 7 9).
  - left.
  - left. reflexivity.
Defined.

Lemma task_rerun_after_reset_witness :
  let self : Task.Task Z := Task.init "t1" "sync" in
  let after := (Task.run self Task.Cancel 7 9).1.1 in
  Task.state (Task.reset after) = Task.task_reset ∧
  (Task.run (Task.reset after) (Task.Returns 42) 11 13).2
  ≠ Some Task.FailedAssertion.
Proof.
  apply (task_rerun_after_reset (Task.init "t1" "sync") Task.Cancel
           (Task.Returns 42) 7 9 11 13).
  left.
Defined.

